(** * Error-injection virtual block device (module/bdev/error/vbdev_error.c)

    A shallow embedding of the fault vector, the request dispatcher, the
    corruption routine, the pending queue and the configuration registry of
    the SPDK error bdev, followed by the properties checked against it. *)

From Stdlib Require Import ZArith Lia.
From stdpp Require Import base tactics option list functions strings.

Local Open Scope Z_scope.

(** ** Constants of the headers *)

(** Modelled from the spec: the enumerators of [enum spdk_bdev_io_type]
    (spdk/bdev.h), which is not under src/.  The spec's fault table is
    indexed by read, write, unmap and flush and handles reset apart; the
    enumeration starts with the invalid type 0 and lists them in that order. *)
Definition SPDK_BDEV_IO_TYPE_INVALID : Z := 0.
Definition SPDK_BDEV_IO_TYPE_READ : Z := 1.
Definition SPDK_BDEV_IO_TYPE_WRITE : Z := 2.
Definition SPDK_BDEV_IO_TYPE_UNMAP : Z := 3.
Definition SPDK_BDEV_IO_TYPE_FLUSH : Z := 4.
Definition SPDK_BDEV_IO_TYPE_RESET : Z := 5.

(** Modelled from the spec: the enumerators of [enum vbdev_error_type]
    (vbdev_error.h), which is not under src/: Fail, Queue, CorruptData and
    NoMemory, numbered from 1; 0 is "no injection". *)
Definition VBDEV_IO_FAILURE : Z := 1.
Definition VBDEV_IO_PENDING : Z := 2.
Definition VBDEV_IO_CORRUPT_DATA : Z := 3.
Definition VBDEV_IO_NOMEM : Z := 4.

(** Modelled from the spec: the completion statuses of
    [enum spdk_bdev_io_status] that the module passes to
    [spdk_bdev_io_complete]: Success, Failed and the out-of-resources status. *)
Inductive spdk_bdev_io_status :=
| SPDK_BDEV_IO_STATUS_SUCCESS
| SPDK_BDEV_IO_STATUS_FAILED
| SPDK_BDEV_IO_STATUS_NOMEM.

(** errno values (errno.h). *)
Definition ENOENT : Z := 2.
Definition ENOMEM : Z := 12.
Definition EEXIST : Z := 17.
Definition ENODEV : Z := 19.
Definition EINVAL : Z := 22.

(** Wrap-around of the unsigned fields. *)
Definition wrap32 (z : Z) : Z := z mod 2 ^ 32.
Definition wrap64 (z : Z) : Z := z mod 2 ^ 64.

(** ** Data *)

(** [struct vbdev_error_info]. *)
Record vbdev_error_info := mk_info {
  error_type : Z;      (* uint32_t *)
  error_num : Z;       (* uint32_t *)
  error_qd : Z;        (* uint64_t *)
  corrupt_offset : Z;  (* uint64_t *)
  corrupt_value : Z    (* uint8_t *)
}.

(** [struct iovec]: a base address (0 is NULL) and a length. *)
Record iovec := mk_iovec {
  iov_base : Z;
  iov_len : Z
}.

(** The part of [struct spdk_bdev_io] the module reads: the request's type,
    the channel it was submitted on and its scatter-gather list
    ([u.bdev.iovs], [None] for a NULL pointer; [u.bdev.iovcnt] is the length
    of the list).  [io_id] stands for the identity of the request object. *)
Record spdk_bdev_io := mk_io {
  io_id : nat;
  io_type : Z;
  io_channel : nat;
  iovs : option (list iovec)
}.

(** [struct error_disk]: the fault vector, an array of
    [SPDK_BDEV_IO_TYPE_RESET] entries, and the queue of parked requests. *)
Record error_disk := mk_disk {
  error_vector : list vbdev_error_info;
  pending_ios : list spdk_bdev_io
}.

(** [struct error_channel]. *)
Record error_channel := mk_channel {
  io_inflight : Z  (* uint64_t *)
}.

(** Calls the module makes into the bdev layer, in the order they are made. *)
Inductive call :=
| spdk_bdev_io_complete (bdev_io : spdk_bdev_io) (status : spdk_bdev_io_status)
| spdk_bdev_part_submit_request_ext (bdev_io : spdk_bdev_io).

(** What the I/O path reads and writes: the disk behind [bdev_io->bdev->ctxt],
    the channel contexts, the data memory (a byte per address) and the calls
    made so far. *)
Record state := mk_state {
  disk : error_disk;
  channels : nat -> error_channel;
  memory : Z -> Z;
  calls : list call
}.

(** Ways the code stops instead of returning. *)
Inductive fault :=
| assertion_failed
| out_of_bounds_store (index : Z).

Inductive outcome (A : Type) :=
| Ret (a : A)
| Crash (f : fault).
Arguments Ret {A} a.
Arguments Crash {A} f.

Definition bind {A B} (m : outcome A) (k : A -> outcome B) : outcome B :=
  match m with
  | Ret a => k a
  | Crash f => Crash f
  end.

Notation "'do' x <- m ; k" := (bind m (fun x => k))
  (at level 10, x name, m at level 100, k at level 200).

(** Field updates. *)
Definition set_disk (d : error_disk) (s : state) : state :=
  mk_state d (channels s) (memory s) (calls s).
Definition set_memory (m : Z -> Z) (s : state) : state :=
  mk_state (disk s) (channels s) m (calls s).
Definition set_inflight (c : nat) (n : Z) (s : state) : state :=
  mk_state (disk s) (<[c := mk_channel n]> (channels s)) (memory s) (calls s).
Definition emit (c : call) (s : state) : state :=
  mk_state (disk s) (channels s) (memory s) (calls s ++ [c]).

Definition set_error_num (n : Z) (e : vbdev_error_info) : vbdev_error_info :=
  mk_info (error_type e) n (error_qd e) (corrupt_offset e) (corrupt_value e).

(** ** The I/O path *)

Section Dispatcher.

(** A load of [error_vector[i]] with [i] past the end of the array reads
    whatever lies behind it; the model leaves that value unconstrained. *)
Variable stray : Z -> vbdev_error_info.

(** [error_disk->error_vector[i]] as an rvalue. *)
Definition error_vector_at (d : error_disk) (i : Z) : vbdev_error_info :=
  default (stray i) (error_vector d !! Z.to_nat i).

(** [error_disk->error_vector[i] = e]; a store past the end of the array is
    reported. *)
Definition error_vector_store (i : Z) (e : vbdev_error_info) (d : error_disk)
  : outcome error_disk :=
  if decide (Z.to_nat i < length (error_vector d))%nat
  then Ret (mk_disk (<[Z.to_nat i := e]> (error_vector d)) (pending_ios d))
  else Crash (out_of_bounds_store i).

(** [error_disk->error_vector[i].error_num--]. *)
Definition error_num_decrement (i : Z) (s : state) : outcome state :=
  let e := error_vector_at (disk s) i in
  do d <- error_vector_store i (set_error_num (wrap32 (error_num e - 1)) e) (disk s) ;
  Ret (set_disk d s).

(** The loop of [vbdev_error_reset]: each pending request is unlinked and
    completed as failed, head first. *)
Fixpoint fail_pending (q : list spdk_bdev_io) (s : state) : state :=
  match q with
  | [] => s
  | pending_io :: tmp =>
      let s1 := set_disk (mk_disk (error_vector (disk s)) tmp) s in
      fail_pending tmp (emit (spdk_bdev_io_complete pending_io SPDK_BDEV_IO_STATUS_FAILED) s1)
  end.

Definition vbdev_error_reset (bdev_io : spdk_bdev_io) (s : state) : state :=
  emit (spdk_bdev_io_complete bdev_io SPDK_BDEV_IO_STATUS_SUCCESS)
       (fail_pending (pending_ios (disk s)) s).

Definition vbdev_error_get_error_type (d : error_disk) (io_type : Z) : Z :=
  if (io_type =? SPDK_BDEV_IO_TYPE_READ) || (io_type =? SPDK_BDEV_IO_TYPE_WRITE)
     || (io_type =? SPDK_BDEV_IO_TYPE_UNMAP) || (io_type =? SPDK_BDEV_IO_TYPE_FLUSH)
  then
    if error_num (error_vector_at d io_type) =? 0 then 0
    else error_type (error_vector_at d io_type)
  else 0.

(** The loop of [vbdev_error_corrupt_io_data] over [iovs[i..iovcnt-1]]. *)
Fixpoint corrupt_walk (l : list iovec) (corrupt_offset corrupt_value : Z)
    (mem : Z -> Z) : Z -> Z :=
  match l with
  | [] => mem
  | v :: rest =>
      if corrupt_offset <? iov_len v
      then <[iov_base v + corrupt_offset :=
               Z.lxor (mem (iov_base v + corrupt_offset)) corrupt_value]> mem
      else corrupt_walk rest (wrap64 (corrupt_offset - iov_len v)) corrupt_value mem
  end.

Definition vbdev_error_corrupt_io_data (bdev_io : spdk_bdev_io)
    (corrupt_offset corrupt_value : Z) (mem : Z -> Z) : Z -> Z :=
  match iovs bdev_io with
  | None => mem
  | Some [] => mem  (* iovcnt = 0: the loop body never runs *)
  | Some (v0 :: rest) =>
      if iov_base v0 =? 0 then mem
      else corrupt_walk (v0 :: rest) corrupt_offset corrupt_value mem
  end.

(** [vbdev_error_complete_request], the completion callback of a forwarded
    request. *)
Definition vbdev_error_complete_request (bdev_io : spdk_bdev_io) (success : bool)
    (s : state) : outcome state :=
  let status := if success then SPDK_BDEV_IO_STATUS_SUCCESS
                else SPDK_BDEV_IO_STATUS_FAILED in
  let ch := io_channel bdev_io in
  if 0 <? io_inflight (channels s ch) then
    let s := set_inflight ch (wrap64 (io_inflight (channels s ch) - 1)) s in
    do s <- (if success && (io_type bdev_io =? SPDK_BDEV_IO_TYPE_READ) then
            let error_type := vbdev_error_get_error_type (disk s) (io_type bdev_io) in
            if error_type =? VBDEV_IO_CORRUPT_DATA then
              do s <- error_num_decrement (io_type bdev_io) s ;
              let e := error_vector_at (disk s) (io_type bdev_io) in
              Ret (set_memory (vbdev_error_corrupt_io_data bdev_io
                                 (corrupt_offset e) (corrupt_value e) (memory s)) s)
            else Ret s
          else Ret s) ;
    Ret (emit (spdk_bdev_io_complete bdev_io status) s)
  else Crash assertion_failed.

(** The shared tail of the switch ([case 0] and the fall-through from
    [VBDEV_IO_CORRUPT_DATA]); [rc] is what
    [spdk_bdev_part_submit_request_ext] returns. *)
Definition forward (rc : Z) (_ch : nat) (bdev_io : spdk_bdev_io) (s : state) : state :=
  let s := emit (spdk_bdev_part_submit_request_ext bdev_io) s in
  let s := if rc =? 0 then s
           else emit (spdk_bdev_io_complete bdev_io SPDK_BDEV_IO_STATUS_FAILED) s in
  set_inflight _ch (wrap64 (io_inflight (channels s _ch) + 1)) s.

(** [TAILQ_INSERT_TAIL(&error_disk->pending_ios, bdev_io, module_link)]. *)
Definition pending_insert_tail (bdev_io : spdk_bdev_io) (s : state) : state :=
  set_disk (mk_disk (error_vector (disk s)) (pending_ios (disk s) ++ [bdev_io])) s.

Definition vbdev_error_submit_request (rc : Z) (_ch : nat) (bdev_io : spdk_bdev_io)
    (s : state) : outcome state :=
  if io_type bdev_io =? SPDK_BDEV_IO_TYPE_RESET then
    Ret (vbdev_error_reset bdev_io s)
  else
    let error_type := vbdev_error_get_error_type (disk s) (io_type bdev_io) in
    let error_type :=
      if io_inflight (channels s _ch) <? error_qd (error_vector_at (disk s) (io_type bdev_io))
      then 0 else error_type in
    if error_type =? VBDEV_IO_FAILURE then
      do s <- error_num_decrement (io_type bdev_io) s ;
      Ret (emit (spdk_bdev_io_complete bdev_io SPDK_BDEV_IO_STATUS_FAILED) s)
    else if error_type =? VBDEV_IO_NOMEM then
      do s <- error_num_decrement (io_type bdev_io) s ;
      Ret (emit (spdk_bdev_io_complete bdev_io SPDK_BDEV_IO_STATUS_NOMEM) s)
    else if error_type =? VBDEV_IO_PENDING then
      error_num_decrement (io_type bdev_io) (pending_insert_tail bdev_io s)
    else if error_type =? VBDEV_IO_CORRUPT_DATA then
      do s <- (if io_type bdev_io =? SPDK_BDEV_IO_TYPE_WRITE then
              do s <- error_num_decrement (io_type bdev_io) s ;
              let e := error_vector_at (disk s) (io_type bdev_io) in
              Ret (set_memory (vbdev_error_corrupt_io_data bdev_io
                                 (corrupt_offset e) (corrupt_value e) (memory s)) s)
            else Ret s) ;
      Ret (forward rc _ch bdev_io s)
    else if error_type =? 0 then
      Ret (forward rc _ch bdev_io s)
    else Crash assertion_failed.

(** A request handed to the module by the bdev layer: a submission on a
    channel (with the answer of the base device's submission layer) or
    the completion of a forwarded request. *)
Inductive request :=
| Submit (rc : Z) (_ch : nat) (bdev_io : spdk_bdev_io)
| Complete (bdev_io : spdk_bdev_io) (success : bool).

Definition step (r : request) (s : state) : outcome state :=
  match r with
  | Submit rc _ch bdev_io => vbdev_error_submit_request rc _ch bdev_io s
  | Complete bdev_io success => vbdev_error_complete_request bdev_io success s
  end.

Fixpoint run (rs : list request) (s : state) : outcome state :=
  match rs with
  | [] => Ret s
  | r :: rs => do s <- step r s ; run rs s
  end.

End Dispatcher.

(** ** The configuration API *)

(** [struct vbdev_error_inject_opts] (vbdev_error.h); the fields carry the
    names they have in C behind the prefix [opts_]. *)
Record vbdev_error_inject_opts := mk_opts {
  opts_io_type : Z;         (* uint32_t *)
  opts_error_type : Z;      (* uint32_t *)
  opts_error_num : Z;       (* uint32_t *)
  opts_error_qd : Z;        (* uint64_t *)
  opts_corrupt_offset : Z;  (* uint64_t *)
  opts_corrupt_value : Z    (* uint8_t *)
}.

(** What the module sees of a [struct spdk_bdev_part]: the name and uuid of
    its bdev and the name of the base bdev.  Bdev names are unique in the
    registry, so a bdev is identified with its name. *)
Record spdk_bdev_part := mk_part {
  part_bdev_name : string;
  part_bdev_uuid : Z;
  part_base_name : string
}.

(** [struct spdk_vbdev_error_config]; a uuid is a 128-bit value, null when 0. *)
Record spdk_vbdev_error_config := mk_config {
  base_bdev : string;
  uuid : Z
}.

(** The module's globals: [g_error_config] and [g_error_disks] (each disk
    with the part embedded at its head). *)
Record globals := mk_globals {
  g_error_config : list spdk_vbdev_error_config;
  g_error_disks : list (spdk_bdev_part * error_disk)
}.

(** The five field assignments from [opts]: every field is overwritten. *)
Definition opts_info (opts : vbdev_error_inject_opts) : vbdev_error_info :=
  mk_info (opts_error_type opts) (opts_error_num opts) (opts_error_qd opts)
          (opts_corrupt_offset opts) (opts_corrupt_value opts).

(** [TAILQ_FOREACH(part, &g_error_disks, tailq)] up to the first part whose
    bdev is the one opened: its position in the list and the disk there. *)
Fixpoint find_error_disk (name : string) (l : list (spdk_bdev_part * error_disk))
  : option (nat * spdk_bdev_part * error_disk) :=
  match l with
  | [] => None
  | (part, d) :: rest =>
      if String.eqb (part_bdev_name part) name then Some (0%nat, part, d)
      else (fun '(k, part, d) => (S k, part, d)) <$> find_error_disk name rest
  end.

(** The three branches on [opts->io_type], on the disk found. *)
Definition inject_into (opts : vbdev_error_inject_opts) (d : error_disk)
  : outcome error_disk :=
  if opts_io_type opts =? 4294967295 (* 0xffffffff *) then
    Ret (mk_disk (map (fun _ => opts_info opts) (error_vector d)) (pending_ios d))
  else if opts_io_type opts =? 0 then
    Ret (mk_disk (map (set_error_num 0) (error_vector d)) (pending_ios d))
  else
    error_vector_store (opts_io_type opts) (opts_info opts) d.

(** [vbdev_error_inject_error]; [spdk_bdev_open_ext] gives the return code
    of the bdev layer's open by name (0 when a bdev of that name exists). *)
Definition vbdev_error_inject_error (spdk_bdev_open_ext : string -> Z)
    (name : string) (opts : vbdev_error_inject_opts)
    (disks : list (spdk_bdev_part * error_disk))
  : outcome (Z * list (spdk_bdev_part * error_disk)) :=
  if (opts_error_type opts =? VBDEV_IO_CORRUPT_DATA) && (opts_corrupt_value opts =? 0)
  then Ret (- EINVAL, disks)
  else
    let rc := spdk_bdev_open_ext name in
    if negb (rc =? 0) then Ret (rc, disks)
    else
      match find_error_disk name disks with
      | None => Ret (- ENODEV, disks)
      | Some (k, part, error_disk) =>
          do d <- inject_into opts error_disk ;
          Ret (0, <[k := (part, d)]> disks)
      end.

(** ** The configuration registry and the life cycle *)

Definition vbdev_error_config_find_by_base_name (base_bdev_name : string)
    (cfgs : list spdk_vbdev_error_config) : option spdk_vbdev_error_config :=
  List.find (fun cfg => String.eqb (base_bdev cfg) base_bdev_name) cfgs.

(** [TAILQ_REMOVE] of the entry found by name: the first one of that name. *)
Fixpoint config_unlink (base_bdev_name : string) (cfgs : list spdk_vbdev_error_config)
  : list spdk_vbdev_error_config :=
  match cfgs with
  | [] => []
  | cfg :: rest =>
      if String.eqb (base_bdev cfg) base_bdev_name then rest
      else cfg :: config_unlink base_bdev_name rest
  end.

(** What the functions below get from outside the module: whether the
    allocations succeed and what the part library returns. *)
Record environment := mk_env {
  config_calloc_ok : bool;
  config_strdup_ok : bool;
  spdk_bdev_part_base_construct_ext : string -> Z;
  disk_calloc_ok : bool;
  spdk_sprintf_alloc_ok : bool;
  spdk_bdev_part_construct : string -> Z
}.

Definition vbdev_error_config_add (env : environment) (base_bdev_name : string)
    (uuid : Z) (cfgs : list spdk_vbdev_error_config)
  : Z * list spdk_vbdev_error_config :=
  match vbdev_error_config_find_by_base_name base_bdev_name cfgs with
  | Some _ => (- EEXIST, cfgs)
  | None =>
      if negb (config_calloc_ok env) then (- ENOMEM, cfgs)
      else if negb (config_strdup_ok env) then (- ENOMEM, cfgs)
      else (0, cfgs ++ [mk_config base_bdev_name uuid])
  end.

Definition vbdev_error_config_remove (base_bdev_name : string)
    (cfgs : list spdk_vbdev_error_config) : Z * list spdk_vbdev_error_config :=
  match vbdev_error_config_find_by_base_name base_bdev_name cfgs with
  | None => (- ENOENT, cfgs)
  | Some _ => (0, config_unlink base_bdev_name cfgs)
  end.

(** The disk as [calloc] and [TAILQ_INIT] leave it: a zeroed fault vector of
    [SPDK_BDEV_IO_TYPE_RESET] entries and no pending request. *)
Definition fresh_disk : error_disk :=
  mk_disk (replicate (Z.to_nat SPDK_BDEV_IO_TYPE_RESET) (mk_info 0 0 0 0 0)) [].

(** Modelled from the spec: the effect of a successful
    [spdk_bdev_part_construct] (lib/bdev/part.c, not under src/) on the list
    given to [spdk_bdev_part_base_construct_ext], here [g_error_disks]: the
    virtual device exists from then on, backed by its fault vector and an
    empty pending queue. *)
Definition part_registered (part : spdk_bdev_part) (d : error_disk)
    (disks : list (spdk_bdev_part * error_disk)) : list (spdk_bdev_part * error_disk) :=
  disks ++ [(part, d)].

Definition _vbdev_error_create (env : environment) (base_bdev_name : string)
    (uuid : Z) (disks : list (spdk_bdev_part * error_disk))
  : Z * list (spdk_bdev_part * error_disk) :=
  let rc := spdk_bdev_part_base_construct_ext env base_bdev_name in
  if negb (rc =? 0) then (rc, disks)
  else if negb (disk_calloc_ok env) then (- ENOMEM, disks)
  else if negb (spdk_sprintf_alloc_ok env) then (- ENOMEM, disks)
  else
    let name := ("EE_" +:+ base_bdev_name)%string in
    let bdev_uuid := if uuid =? 0 then 0 else uuid in
    let rc := spdk_bdev_part_construct env name in
    if negb (rc =? 0) then (rc, disks)
    else (0, part_registered (mk_part name bdev_uuid base_bdev_name) fresh_disk disks).

Definition vbdev_error_create (env : environment) (base_bdev_name : string)
    (uuid : Z) (g : globals) : Z * globals :=
  let '(rc, cfgs) := vbdev_error_config_add env base_bdev_name uuid (g_error_config g) in
  if negb (rc =? 0) then (rc, g)
  else
    let '(rc, disks) := _vbdev_error_create env base_bdev_name uuid (g_error_disks g) in
    if rc =? - ENODEV then (0, mk_globals cfgs disks)
    else if negb (rc =? 0) then
      (rc, mk_globals (snd (vbdev_error_config_remove base_bdev_name cfgs)) disks)
    else (rc, mk_globals cfgs disks).

(** [vbdev_error_examine] for a bdev of the given name. *)
Definition vbdev_error_examine (env : environment) (bdev_name : string)
    (g : globals) : globals :=
  match vbdev_error_config_find_by_base_name bdev_name (g_error_config g) with
  | Some cfg =>
      mk_globals (g_error_config g)
                 (snd (_vbdev_error_create env bdev_name (uuid cfg) (g_error_disks g)))
  | None => g
  end.

(** ** Vocabulary of the properties *)

(** The cumulative length of a buffer list. *)
Definition iov_total (l : list iovec) : Z :=
  foldr (fun v acc => iov_len v + acc) 0 l.

(** Lengths are [size_t] values. *)
Definition iov_wf (l : list iovec) : Prop :=
  Forall (fun v => 0 <= iov_len v) l.

(** The request kinds that have an entry of their own in the fault vector. *)
Definition is_table_kind (K : Z) : Prop :=
  K = SPDK_BDEV_IO_TYPE_READ \/ K = SPDK_BDEV_IO_TYPE_WRITE \/
  K = SPDK_BDEV_IO_TYPE_UNMAP \/ K = SPDK_BDEV_IO_TYPE_FLUSH.

(** The calls of a request handed to the base device: the submission and,
    when the submission layer refuses it, its completion as failed. *)
Definition forward_calls (rc : Z) (bdev_io : spdk_bdev_io) : list call :=
  spdk_bdev_part_submit_request_ext bdev_io ::
  (if rc =? 0 then [] else [spdk_bdev_io_complete bdev_io SPDK_BDEV_IO_STATUS_FAILED]).

(** A submission that left the fault vector, the pending queue and the data
    alone and handed the request to the base device. *)
Definition forwarded_untouched (rc : Z) (bdev_io : spdk_bdev_io) (s s' : state) : Prop :=
  disk s' = disk s /\ memory s' = memory s /\
  calls s' = calls s ++ forward_calls rc bdev_io.

(** What a submission hit by a fault of each kind did to the request, from
    the state [s] before it to the state [s'] after it; [e] is the fault
    vector's entry for the request's kind in [s]. *)
Inductive affected (rc : Z) (_ch : nat) (bdev_io : spdk_bdev_io)
    (e : vbdev_error_info) (s s' : state) : Z -> Prop :=
| affected_failed :
    calls s' = calls s ++ [spdk_bdev_io_complete bdev_io SPDK_BDEV_IO_STATUS_FAILED] ->
    pending_ios (disk s') = pending_ios (disk s) ->
    memory s' = memory s -> channels s' = channels s ->
    affected rc _ch bdev_io e s s' VBDEV_IO_FAILURE
| affected_nomem :
    calls s' = calls s ++ [spdk_bdev_io_complete bdev_io SPDK_BDEV_IO_STATUS_NOMEM] ->
    pending_ios (disk s') = pending_ios (disk s) ->
    memory s' = memory s -> channels s' = channels s ->
    affected rc _ch bdev_io e s s' VBDEV_IO_NOMEM
| affected_queued :
    calls s' = calls s ->
    pending_ios (disk s') = pending_ios (disk s) ++ [bdev_io] ->
    memory s' = memory s -> channels s' = channels s ->
    affected rc _ch bdev_io e s s' VBDEV_IO_PENDING
| affected_corrupted :
    memory s' = vbdev_error_corrupt_io_data bdev_io (corrupt_offset e) (corrupt_value e)
                  (memory s) ->
    calls s' = calls s ++ forward_calls rc bdev_io ->
    pending_ios (disk s') = pending_ios (disk s) ->
    affected rc _ch bdev_io e s s' VBDEV_IO_CORRUPT_DATA.

(** Every channel's counter is a [uint64_t]. *)
Definition channels_wf (s : state) : Prop :=
  forall c, 0 <= io_inflight (channels s c) < 2 ^ 64.

(** A request of the given kind submitted on some channel. *)
Definition submission_of (K : Z) (r : request) : Prop :=
  exists rc _ch bdev_io, r = Submit rc _ch bdev_io /\ io_type bdev_io = K.

(** No entry of the fault vector has occurrences left. *)
Definition inert (d : error_disk) : Prop :=
  Forall (fun e => error_num e = 0) (error_vector d).


(** A submission as a triple: the answer of the base device's submission
    layer, the channel and the request. *)
Definition to_submit (p : Z * nat * spdk_bdev_io) : request :=
  Submit p.1.1 p.1.2 p.2.

(** The completion of a request as failed, as a call. *)
Definition fail_call (bdev_io : spdk_bdev_io) : call :=
  spdk_bdev_io_complete bdev_io SPDK_BDEV_IO_STATUS_FAILED.

(** The fault vector has the length its declaration gives it. *)
Definition disk_wf (d : error_disk) : Prop :=
  length (error_vector d) = Z.to_nat SPDK_BDEV_IO_TYPE_RESET.
(** ** Concrete inputs used below *)

Definition zero_memory : Z -> Z := fun _ => 0.

(** A read submitted without a data buffer: one iovec of 512 bytes whose
    base is NULL. *)
Definition read_without_buffer : spdk_bdev_io :=
  mk_io 7 SPDK_BDEV_IO_TYPE_READ 0 (Some [mk_iovec 0 512]).

(** A write with two buffers of 100 and 50 bytes. *)
Definition two_buffer_write : spdk_bdev_io :=
  mk_io 8 SPDK_BDEV_IO_TYPE_WRITE 0 (Some [mk_iovec 4096 100; mk_iovec 8192 50]).

Definition zero_info : vbdev_error_info := mk_info 0 0 0 0 0.

Definition no_stray : Z -> vbdev_error_info := fun _ => zero_info.

Definition idle_channels : nat -> error_channel := fun _ => mk_channel 0.

(** A disk with no fault configured, no request in flight on any channel. *)
Definition idle_state : state := mk_state fresh_disk idle_channels zero_memory [].

(** A read of 512 bytes into a buffer at address 4096, on channel 0. *)
Definition plain_read : spdk_bdev_io :=
  mk_io 1 SPDK_BDEV_IO_TYPE_READ 0 (Some [mk_iovec 4096 512]).

Definition read_on (id c : nat) : spdk_bdev_io :=
  mk_io id SPDK_BDEV_IO_TYPE_READ c (Some [mk_iovec 4096 512]).

(** The read entry fails the next two reads, at any queue depth. *)
Definition failing_reads_state : state :=
  mk_state (mk_disk [zero_info; mk_info VBDEV_IO_FAILURE 2 0 0 0; zero_info; zero_info;
                     zero_info] [])
           idle_channels zero_memory [].

Definition three_reads : list request :=
  [Submit 0 0 (read_on 1 0); Submit 0 1 (read_on 2 1); Submit 0 0 (read_on 3 0)].

(** The unmap entry holds one occurrence of CorruptData, threshold 0. *)
Definition unmap_corrupt_entry : vbdev_error_info :=
  mk_info VBDEV_IO_CORRUPT_DATA 1 0 0 255.

Definition unmap_corrupt_state : state :=
  mk_state (mk_disk [zero_info; zero_info; zero_info; unmap_corrupt_entry; zero_info] [])
           idle_channels zero_memory [].

Definition unmap_request : spdk_bdev_io := mk_io 4 SPDK_BDEV_IO_TYPE_UNMAP 0 None.


Definition reset_request : spdk_bdev_io := mk_io 9 SPDK_BDEV_IO_TYPE_RESET 0 None.

(** Three reads are parked. *)
Definition parked_state : state :=
  mk_state (mk_disk (error_vector fresh_disk) [read_on 1 0; read_on 2 1; read_on 3 0])
           idle_channels zero_memory [].

(** One error bdev, every entry of which fails the next five requests. *)
Definition failing_disk : error_disk :=
  mk_disk (replicate 5 (mk_info VBDEV_IO_FAILURE 5 0 0 0)) [].

Definition error_malloc0 : spdk_bdev_part := mk_part "EE_Malloc0" 0 "Malloc0".

Definition one_device : list (spdk_bdev_part * error_disk) :=
  [(error_malloc0, failing_disk)].

Definition always_open : string -> Z := fun _ => 0.

Definition clear_opts : vbdev_error_inject_opts :=
  mk_opts 0 VBDEV_IO_FAILURE 0 0 0 0.

(** The clear-all sentinel with error type CorruptData and no corrupt value. *)
Definition clear_opts_corrupt : vbdev_error_inject_opts :=
  mk_opts 0 VBDEV_IO_CORRUPT_DATA 0 0 0 0.

Definition corrupt_opts_zero_value : vbdev_error_inject_opts :=
  mk_opts SPDK_BDEV_IO_TYPE_READ VBDEV_IO_CORRUPT_DATA 3 0 10 0.

(** An [io_type] past the end of the fault vector. *)
Definition stray_kind_opts : vbdev_error_inject_opts :=
  mk_opts 7 VBDEV_IO_FAILURE 1 0 0 0.

(** The base device is not there. *)
Definition env_absent : environment :=
  mk_env true true (fun _ => - ENODEV) true true (fun _ => 0).

Definition no_globals : globals := mk_globals [] [].

(** The read entry corrupts one read, with a threshold of 100 requests in
    flight; one request is in flight. *)
Definition corrupt_read_entry : vbdev_error_info :=
  mk_info VBDEV_IO_CORRUPT_DATA 1 100 10 255.

Definition corrupt_read_state : state :=
  mk_state (mk_disk [zero_info; corrupt_read_entry; zero_info; zero_info; zero_info] [])
           (fun _ => mk_channel 1) zero_memory [].

(** ** Teardown and serialization *)

(** Modelled from the spec: the effect of [spdk_bdev_part_free]
    (lib/bdev/part.c, not under src/) on [g_error_disks]: the virtual device
    is destroyed and its part leaves the list. *)
Definition part_unlinked (part : spdk_bdev_part)
    (disks : list (spdk_bdev_part * error_disk)) : list (spdk_bdev_part * error_disk) :=
  List.filter (fun p => negb (String.eqb (part_bdev_name p.1) (part_bdev_name part))) disks.

(** [vbdev_error_destruct]: the configuration entry of the base bdev is
    removed (a failure is only logged) and the part is freed; the return
    value is that of [spdk_bdev_part_free]. *)
Definition vbdev_error_destruct (spdk_bdev_part_free : spdk_bdev_part -> Z)
    (part : spdk_bdev_part) (g : globals) : Z * globals :=
  let '(rc, cfgs) := vbdev_error_config_remove (part_base_name part) (g_error_config g) in
  (spdk_bdev_part_free part, mk_globals cfgs (part_unlinked part (g_error_disks g))).

(** The loop of [vbdev_error_clear_config]: while the list has a first
    entry, that entry is unlinked and freed. *)
Fixpoint vbdev_error_clear_config (cfgs : list spdk_vbdev_error_config)
  : list spdk_vbdev_error_config :=
  match cfgs with
  | [] => []
  | cfg :: rest => vbdev_error_clear_config rest
  end.

Definition vbdev_error_fini (g : globals) : globals :=
  mk_globals (vbdev_error_clear_config (g_error_config g)) (g_error_disks g).

(** The calls [vbdev_error_config_json] makes on the JSON write context. *)
Inductive json_call :=
| spdk_json_write_object_begin
| spdk_json_write_named_object_begin (name : string)
| spdk_json_write_named_string (name val : string)
| spdk_json_write_object_end.

(** The body of the loop of [vbdev_error_config_json] for one entry;
    [spdk_uuid_fmt_lower] is the formatting of a uuid as text. *)
Definition config_json_entry (spdk_uuid_fmt_lower : Z -> string)
    (cfg : spdk_vbdev_error_config) : list json_call :=
  [spdk_json_write_object_begin;
   spdk_json_write_named_string "method" "bdev_error_create";
   spdk_json_write_named_object_begin "params";
   spdk_json_write_named_string "base_name" (base_bdev cfg)]
  ++ (if uuid cfg =? 0 then []
      else [spdk_json_write_named_string "uuid" (spdk_uuid_fmt_lower (uuid cfg))])
  ++ [spdk_json_write_object_end;
      spdk_json_write_object_end].

Definition vbdev_error_config_json (spdk_uuid_fmt_lower : Z -> string)
    (cfgs : list spdk_vbdev_error_config) : Z * list json_call :=
  (0, flat_map (config_json_entry spdk_uuid_fmt_lower) cfgs).

(** ** Further vocabulary *)

(** The nesting depth after a stream of JSON calls, from a given depth;
    [None] when an object is closed that was never opened. *)
Fixpoint json_depth (depth : nat) (l : list json_call) : option nat :=
  match l with
  | [] => Some depth
  | spdk_json_write_object_begin :: l => json_depth (S depth) l
  | spdk_json_write_named_object_begin _ :: l => json_depth (S depth) l
  | spdk_json_write_named_string _ _ :: l => json_depth depth l
  | spdk_json_write_object_end :: l =>
      match depth with
      | O => None
      | S depth => json_depth depth l
      end
  end.

(** The values written under a given member name, in order. *)
Fixpoint json_members (name : string) (l : list json_call) : list string :=
  match l with
  | [] => []
  | spdk_json_write_named_string n v :: l =>
      if String.eqb n name then v :: json_members name l else json_members name l
  | _ :: l => json_members name l
  end.

(** No two entries of the registry have the same base name. *)
Definition registry_wf (cfgs : list spdk_vbdev_error_config) : Prop :=
  NoDup (map base_bdev cfgs).

(** Every occurrence count is a [uint32_t]. *)
Definition occurrences_wf (d : error_disk) : Prop :=
  Forall (fun e => 0 <= error_num e < 2 ^ 32) (error_vector d).

(** An entry after I/O: the configuration is the same and it has the same
    occurrences or, having had some, one fewer. *)
Definition spent (e e' : vbdev_error_info) : Prop :=
  error_type e' = error_type e /\ error_qd e' = error_qd e /\
  corrupt_offset e' = corrupt_offset e /\ corrupt_value e' = corrupt_value e /\
  (error_num e' = error_num e \/ (0 < error_num e /\ error_num e' = error_num e - 1)).

(** An entry later on: the same configuration, no more occurrences. *)
Definition consumed (e e' : vbdev_error_info) : Prop :=
  error_type e' = error_type e /\ error_qd e' = error_qd e /\
  corrupt_offset e' = corrupt_offset e /\ corrupt_value e' = corrupt_value e /\
  0 <= error_num e' <= error_num e.

(** A submission of a reset request. *)
Definition is_reset (r : request) : Prop :=
  exists rc c io, r = Submit rc c io /\ io_type io = SPDK_BDEV_IO_TYPE_RESET.

(** The status a completion passes on. *)
Definition completion_status (success : bool) : spdk_bdev_io_status :=
  if success then SPDK_BDEV_IO_STATUS_SUCCESS else SPDK_BDEV_IO_STATUS_FAILED.

(** ** Further concrete inputs *)

(** A registry of two entries, the second with a uuid. *)
Definition two_entries : list spdk_vbdev_error_config :=
  [mk_config "Malloc0" 0; mk_config "Nvme0n1" 7].

(** The base device is there and every construction step succeeds. *)
Definition env_present : environment :=
  mk_env true true (fun _ => 0) true true (fun _ => 0).

Definition registered_globals : globals := mk_globals two_entries [].

(** The read entry holds an error type no case of the switch handles. *)
Definition unknown_type_state : state :=
  mk_state (mk_disk [zero_info; mk_info 9 1 0 0 0; zero_info; zero_info; zero_info] [])
           idle_channels zero_memory [].

(** A write-zeroes request: a kind without an entry in the fault vector. *)
Definition write_zeroes_request : spdk_bdev_io := mk_io 5 9 0 None.

(** Every entry fails the next five requests. *)
Definition all_failing_state : state :=
  mk_state failing_disk idle_channels zero_memory [].

(** Two failures for every kind. *)
Definition all_kinds_opts : vbdev_error_inject_opts :=
  mk_opts 4294967295 VBDEV_IO_FAILURE 2 0 0 0.

(** The read entry fails one read once three requests are in flight; three
    are in flight on channel 0, none on the others. *)
Definition threshold_reached_state : state :=
  mk_state (mk_disk [zero_info; mk_info VBDEV_IO_FAILURE 1 3 0 0; zero_info; zero_info;
                     zero_info] [])
           (fun c => mk_channel (if Nat.eqb c 0 then 3 else 0)) zero_memory [].

(** ** The corruption routine *)

Lemma iov_total_app (l1 l2 : list iovec) :
  iov_total (l1 ++ l2) = iov_total l1 + iov_total l2.
Proof.
  induction l1 as [|v l1 IH]; simpl; [reflexivity|].
  rewrite IH. lia.
Qed.

Lemma iov_total_nonneg (l : list iovec) : iov_wf l -> 0 <= iov_total l.
Proof.
  induction 1 as [|v l Hv _ IH]; simpl; lia.
Qed.

Lemma wrap64_small (z : Z) : 0 <= z < 2 ^ 64 -> wrap64 z = z.
Proof. intros H. unfold wrap64. apply Z.mod_small. exact H. Qed.

Lemma wrap32_small (z : Z) : 0 <= z < 2 ^ 32 -> wrap32 z = z.
Proof. intros H. unfold wrap32. apply Z.mod_small. exact H. Qed.

(** The walk skips the buffers that end at or before the offset and stores
    into the one that contains it. *)
Lemma corrupt_walk_target (pre : list iovec) (v : iovec) (post : list iovec)
    (off val : Z) (mem : Z -> Z) :
  iov_wf pre -> 0 <= off < 2 ^ 64 ->
  iov_total pre <= off < iov_total pre + iov_len v ->
  corrupt_walk (pre ++ v :: post) off val mem =
  <[iov_base v + (off - iov_total pre) :=
      Z.lxor (mem (iov_base v + (off - iov_total pre))) val]> mem.
Proof.
  revert off. induction pre as [|p pre IH]; intros off Hwf Hoff Hin; simpl in *.
  - replace (off - 0) with off by lia.
    destruct (Z.ltb_spec off (iov_len v)) as [_|Hge]; [reflexivity|lia].
  - inversion Hwf as [|? ? Hp Hpre]; subst.
    pose proof (iov_total_nonneg pre Hpre) as Hnn.
    destruct (Z.ltb_spec off (iov_len p)) as [Hlt|_]; [lia|].
    rewrite wrap64_small by lia.
    rewrite IH by (trivial; lia).
    replace (off - iov_len p - iov_total pre) with (off - (iov_len p + iov_total pre)) by lia.
    reflexivity.
Qed.

Lemma corrupt_walk_beyond (l : list iovec) (off val : Z) (mem : Z -> Z) :
  iov_wf l -> 0 <= off < 2 ^ 64 -> iov_total l <= off ->
  corrupt_walk l off val mem = mem.
Proof.
  revert off. induction l as [|p l IH]; intros off Hwf Hoff Hle; simpl in *.
  - reflexivity.
  - inversion Hwf as [|? ? Hp Hl]; subst.
    pose proof (iov_total_nonneg l Hl) as Hnn.
    destruct (Z.ltb_spec off (iov_len p)) as [Hlt|_]; [lia|].
    rewrite wrap64_small by lia.
    apply IH; [assumption|lia|lia].
Qed.

Lemma fn_insert_at (mem : Z -> Z) (a x a' : Z) :
  <[a := x]> mem a' = if decide (a' = a) then x else mem a'.
Proof.
  unfold insert, fn_insert.
  destruct (decide (a = a')), (decide (a' = a)); congruence.
Qed.

Lemma corrupt_io_data_walk (bdev_io : spdk_bdev_io) (l : list iovec)
    (off val : Z) (mem : Z -> Z) :
  iovs bdev_io = Some l ->
  (forall v0, head l = Some v0 -> iov_base v0 <> 0) ->
  vbdev_error_corrupt_io_data bdev_io off val mem = corrupt_walk l off val mem.
Proof.
  intros Hl Hbase. unfold vbdev_error_corrupt_io_data. rewrite Hl.
  destruct l as [|v0 rest]; [reflexivity|].
  specialize (Hbase v0 eq_refl).
  destruct (Z.eqb_spec (iov_base v0) 0); [contradiction|reflexivity].
Qed.

(** The routine's result at every address when the offset falls into one of
    the buffers. *)
Lemma corrupt_io_data_target (bdev_io : spdk_bdev_io) (l pre : list iovec) (v : iovec)
    (post : list iovec) (off val : Z) (mem : Z -> Z) :
  iovs bdev_io = Some l ->
  (forall v0, head l = Some v0 -> iov_base v0 <> 0) ->
  iov_wf l -> 0 <= off < 2 ^ 64 ->
  l = pre ++ v :: post ->
  iov_total pre <= off < iov_total pre + iov_len v ->
  forall a, vbdev_error_corrupt_io_data bdev_io off val mem a =
            if decide (a = iov_base v + (off - iov_total pre))
            then Z.lxor (mem a) val else mem a.
Proof.
  intros Hl Hbase Hwf Hoff -> Hin a.
  rewrite (corrupt_io_data_walk bdev_io _ off val mem Hl Hbase).
  apply Forall_app in Hwf as [Hpre _].
  rewrite corrupt_walk_target by assumption.
  rewrite fn_insert_at. destruct (decide _) as [->|]; reflexivity.
Qed.

(** The cases in which the routine changes no byte. *)
Lemma corrupt_io_data_nothing (bdev_io : spdk_bdev_io) (off val : Z) (mem : Z -> Z) :
  iovs bdev_io = None \/
  (exists v0 rest, iovs bdev_io = Some (v0 :: rest) /\ iov_base v0 = 0) \/
  (exists l, iovs bdev_io = Some l /\ iov_wf l /\ 0 <= off < 2 ^ 64 /\ iov_total l <= off) ->
  vbdev_error_corrupt_io_data bdev_io off val mem = mem.
Proof.
  unfold vbdev_error_corrupt_io_data.
  intros [-> | [(v0 & rest & -> & ->) | (l & -> & Hwf & Hoff & Hle)]]; try reflexivity.
  destruct l as [|v0 rest]; [reflexivity|].
  destruct (iov_base v0 =? 0); [reflexivity|].
  apply corrupt_walk_beyond; assumption.
Qed.

(** XOR with a value other than 0 changes the byte. *)
Lemma lxor_changes (x v : Z) : v <> 0 -> Z.lxor x v <> x.
Proof.
  intros Hv Heq. apply Hv.
  assert (H : Z.lxor x (Z.lxor x v) = Z.lxor x x) by (rewrite Heq; reflexivity).
  rewrite <- Z.lxor_assoc, Z.lxor_nilpotent, Z.lxor_0_l in H. exact H.
Qed.

(** C3, counterexample: the only buffer of the request is 512 bytes long,
    longer than the offset 10, and its base is NULL; the routine returns at
    its guard and no byte at all is changed, where the claim has exactly one
    byte XORed. *)
Lemma corrupt_io_data_null_base_changes_nothing :
  iovs read_without_buffer = Some [mk_iovec 0 512] /\
  10 < iov_total [mk_iovec 0 512] /\
  ~ exists a, vbdev_error_corrupt_io_data read_without_buffer 10 255 zero_memory a
              <> zero_memory a.
Proof.
  split; [reflexivity|]. split; [vm_compute; reflexivity|].
  intros [a Ha]. apply Ha. reflexivity.
Qed.

(** C3 (amended): without a buffer list, or with a first buffer whose base is
    NULL, [vbdev_error_corrupt_io_data] changes no byte.  Otherwise it walks
    the list in order, subtracting the full length of each earlier buffer
    from the offset, and XORs with the configured value exactly the byte at
    the remaining offset in the first buffer that is longer than it, every
    other byte staying as it was; with buffers of 100 and 50 bytes and offset
    120 that is the byte at offset 20 of the second buffer; and when the
    buffers together are no longer than the offset no byte is changed. *)
Theorem corrupt_io_data_flips_one_byte (bdev_io : spdk_bdev_io) (off val : Z)
    (mem : Z -> Z) :
  0 <= off < 2 ^ 64 ->
  (forall l, iovs bdev_io = Some l -> iov_wf l) ->
  (iovs bdev_io = None \/
   (exists v0 rest, iovs bdev_io = Some (v0 :: rest) /\ iov_base v0 = 0) ->
   vbdev_error_corrupt_io_data bdev_io off val mem = mem) /\
  (forall l, iovs bdev_io = Some l ->
     (forall v0, head l = Some v0 -> iov_base v0 <> 0) ->
     (forall pre v post, l = pre ++ v :: post ->
        iov_total pre <= off < iov_total pre + iov_len v ->
        forall a, vbdev_error_corrupt_io_data bdev_io off val mem a =
                  if decide (a = iov_base v + (off - iov_total pre))
                  then Z.lxor (mem a) val else mem a) /\
     (forall b0 b1, l = [mk_iovec b0 100; mk_iovec b1 50] -> off = 120 ->
        forall a, vbdev_error_corrupt_io_data bdev_io off val mem a =
                  if decide (a = b1 + 20) then Z.lxor (mem a) val else mem a) /\
     (iov_total l <= off ->
      vbdev_error_corrupt_io_data bdev_io off val mem = mem)).
Proof.
  intros Hoff Hwf. split.
  - intros [Hnone | (v0 & rest & Hl & Hnull)]; unfold vbdev_error_corrupt_io_data.
    + rewrite Hnone. reflexivity.
    + rewrite Hl, Hnull. reflexivity.
  - intros l Hl Hbase. specialize (Hwf l Hl).
    rewrite (corrupt_io_data_walk bdev_io l off val mem Hl Hbase).
    assert (Htarget : forall pre v post, l = pre ++ v :: post ->
              iov_total pre <= off < iov_total pre + iov_len v ->
              forall a, corrupt_walk l off val mem a =
                        if decide (a = iov_base v + (off - iov_total pre))
                        then Z.lxor (mem a) val else mem a).
    { intros pre v post -> Hin a.
      apply Forall_app in Hwf as [Hpre _].
      rewrite corrupt_walk_target by assumption.
      rewrite fn_insert_at. destruct (decide _) as [->|]; reflexivity. }
    split; [exact Htarget|]. split.
    + intros b0 b1 -> -> a.
      rewrite (Htarget [mk_iovec b0 100] (mk_iovec b1 50) [] eq_refl) by (simpl; lia).
      simpl. replace (b1 + (120 - (100 + 0))) with (b1 + 20) by lia. reflexivity.
    + intros Hle. apply corrupt_walk_beyond; assumption.
Qed.

(** The theorem at the write with buffers of 100 and 50 bytes, offset 120:
    the byte at offset 20 of the second buffer is flipped, the first byte of
    the first buffer is not. *)
Lemma corrupt_io_data_flips_one_byte_witness :
  vbdev_error_corrupt_io_data two_buffer_write 120 255 zero_memory (8192 + 20)
    = Z.lxor (zero_memory (8192 + 20)) 255 /\
  vbdev_error_corrupt_io_data two_buffer_write 120 255 zero_memory 4096
    = zero_memory 4096.
Proof.
  assert (Hoff : 0 <= 120 < 2 ^ 64) by lia.
  assert (Hwf : forall l, iovs two_buffer_write = Some l -> iov_wf l).
  { intros l [= <-]. repeat constructor; simpl; lia. }
  pose proof (corrupt_io_data_flips_one_byte two_buffer_write 120 255 zero_memory Hoff Hwf)
    as [_ Hwalk].
  assert (Hbase : forall v0, head [mk_iovec 4096 100; mk_iovec 8192 50] = Some v0 ->
                             iov_base v0 <> 0).
  { intros v0 [= <-]. simpl. lia. }
  destruct (Hwalk _ eq_refl Hbase) as (_ & Hex & _).
  split.
  - rewrite (Hex 4096 8192 eq_refl eq_refl (8192 + 20)). reflexivity.
  - rewrite (Hex 4096 8192 eq_refl eq_refl 4096). reflexivity.
Defined.

(** ** The dispatcher *)

Section DispatcherProofs.

Variable stray : Z -> vbdev_error_info.

Lemma error_vector_at_Some (d : error_disk) (i : Z) (e : vbdev_error_info) :
  error_vector d !! Z.to_nat i = Some e -> error_vector_at stray d i = e.
Proof. intros H. unfold error_vector_at. rewrite H. reflexivity. Qed.

Lemma error_num_decrement_Some (i : Z) (s : state) (e : vbdev_error_info) :
  error_vector (disk s) !! Z.to_nat i = Some e ->
  error_num_decrement stray i s =
  Ret (set_disk (mk_disk (<[Z.to_nat i := set_error_num (wrap32 (error_num e - 1)) e]>
                            (error_vector (disk s)))
                         (pending_ios (disk s))) s).
Proof.
  intros H. unfold error_num_decrement, error_vector_store.
  rewrite (error_vector_at_Some _ _ _ H).
  destruct (decide _) as [_|Hge]; [reflexivity|].
  exfalso. apply Hge. eapply lookup_lt_Some. exact H.
Qed.

Lemma get_error_type_table (d : error_disk) (K : Z) (e : vbdev_error_info) :
  is_table_kind K -> error_vector d !! Z.to_nat K = Some e ->
  vbdev_error_get_error_type stray d K =
  if error_num e =? 0 then 0 else error_type e.
Proof.
  intros HK H. unfold vbdev_error_get_error_type.
  rewrite (error_vector_at_Some _ _ _ H).
  destruct HK as [-> | [-> | [-> | ->]]]; reflexivity.
Qed.

Lemma table_kind_not_reset (K : Z) :
  is_table_kind K -> (K =? SPDK_BDEV_IO_TYPE_RESET) = false.
Proof. intros [-> | [-> | [-> | ->]]]; reflexivity. Qed.

(** *** The shared tail *)

Lemma forward_disk rc c io s : disk (forward rc c io s) = disk s.
Proof. unfold forward. destruct (rc =? 0); reflexivity. Qed.

Lemma forward_memory rc c io s : memory (forward rc c io s) = memory s.
Proof. unfold forward. destruct (rc =? 0); reflexivity. Qed.

Lemma forward_calls_eq rc c io s :
  calls (forward rc c io s) = calls s ++ forward_calls rc io.
Proof.
  unfold forward, forward_calls. destruct (rc =? 0); simpl.
  - reflexivity.
  - rewrite <- app_assoc. reflexivity.
Qed.

Lemma forward_inflight rc c io s :
  io_inflight (channels (forward rc c io s) c) = wrap64 (io_inflight (channels s c) + 1).
Proof.
  unfold forward. destruct (rc =? 0); simpl; rewrite fn_lookup_insert; reflexivity.
Qed.

Lemma forward_inflight_ne rc c c' io s :
  c <> c' -> channels (forward rc c io s) c' = channels s c'.
Proof.
  intros Hne. unfold forward.
  destruct (rc =? 0); simpl; rewrite fn_lookup_insert_ne by assumption; reflexivity.
Qed.

Lemma forward_untouched rc c io s : forwarded_untouched rc io s (forward rc c io s).
Proof.
  split; [apply forward_disk|]. split; [apply forward_memory|apply forward_calls_eq].
Qed.

Lemma wrap64_range z : 0 <= wrap64 z < 2 ^ 64.
Proof. unfold wrap64. apply Z.mod_pos_bound. lia. Qed.

Lemma forward_channels_wf rc c io s : channels_wf s -> channels_wf (forward rc c io s).
Proof.
  intros Hwf c'. destruct (decide (c = c')) as [<-|Hne].
  - rewrite forward_inflight. apply wrap64_range.
  - rewrite forward_inflight_ne by assumption. apply Hwf.
Qed.

(** *** Submissions that find no injection *)

(** A submission whose effective error type is 0 takes the shared tail. *)
Lemma submit_request_no_injection rc c io s :
  io_type io <> SPDK_BDEV_IO_TYPE_RESET ->
  (io_inflight (channels s c) <? error_qd (error_vector_at stray (disk s) (io_type io))) = true
  \/ vbdev_error_get_error_type stray (disk s) (io_type io) = 0 ->
  vbdev_error_submit_request stray rc c io s = Ret (forward rc c io s).
Proof.
  intros Hreset Hzero. unfold vbdev_error_submit_request.
  destruct (Z.eqb_spec (io_type io) SPDK_BDEV_IO_TYPE_RESET); [contradiction|].
  destruct Hzero as [-> | ->]; [reflexivity|].
  destruct (_ <? _); reflexivity.
Qed.


(** *** Submissions hit by a fault *)

Lemma set_error_num_same (e : vbdev_error_info) : set_error_num (error_num e) e = e.
Proof. destruct e; reflexivity. Qed.

Lemma affected_entry_num rc c io e n s s' T :
  affected rc c io (set_error_num n e) s s' T -> affected rc c io e s s' T.
Proof.
  intros H. inversion H; subst.
  - apply affected_failed; assumption.
  - apply affected_nomem; assumption.
  - apply affected_queued; assumption.
  - apply affected_corrupted; assumption.
Qed.

(** With occurrences left and no threshold, a submission of a table kind
    gets the configured fault and the entry loses one occurrence. *)
Lemma submit_request_affected rc c io s e T :
  is_table_kind (io_type io) ->
  T = VBDEV_IO_FAILURE \/ T = VBDEV_IO_NOMEM \/ T = VBDEV_IO_PENDING \/
  (T = VBDEV_IO_CORRUPT_DATA /\ io_type io = SPDK_BDEV_IO_TYPE_WRITE) ->
  error_vector (disk s) !! Z.to_nat (io_type io) = Some e ->
  error_type e = T -> 0 < error_num e < 2 ^ 32 -> error_qd e = 0 ->
  channels_wf s ->
  exists s',
    vbdev_error_submit_request stray rc c io s = Ret s' /\
    error_vector (disk s') =
      <[Z.to_nat (io_type io) := set_error_num (error_num e - 1) e]> (error_vector (disk s)) /\
    affected rc c io e s s' T /\
    channels_wf s'.
Proof.
  intros HK HT He Htype Hnum Hqd Hwf.
  unfold vbdev_error_submit_request.
  rewrite (table_kind_not_reset _ HK).
  rewrite (get_error_type_table _ _ _ HK He).
  rewrite (error_vector_at_Some _ _ _ He), Hqd.
  destruct (Z.ltb_spec (io_inflight (channels s c)) 0) as [Hneg|_];
    [specialize (Hwf c); lia|].
  destruct (Z.eqb_spec (error_num e) 0) as [Hz|_]; [lia|].
  rewrite Htype.
  assert (Hdec : wrap32 (error_num e - 1) = error_num e - 1)
    by (apply wrap32_small; lia).
  destruct HT as [-> | [-> | [-> | [-> Hwrite]]]].
  - rewrite (error_num_decrement_Some _ _ _ He), Hdec. simpl.
    eexists. split; [reflexivity|]. split; [reflexivity|].
    split; [apply affected_failed; reflexivity|exact Hwf].
  - rewrite (error_num_decrement_Some _ _ _ He), Hdec. simpl.
    eexists. split; [reflexivity|]. split; [reflexivity|].
    split; [apply affected_nomem; reflexivity|exact Hwf].
  - rewrite (error_num_decrement_Some _ (pending_insert_tail io s) e He), Hdec. simpl.
    eexists. split; [reflexivity|]. split; [reflexivity|].
    split; [apply affected_queued; reflexivity|exact Hwf].
  - rewrite Hwrite in *. simpl.
    rewrite (error_num_decrement_Some _ _ _ He), Hdec. simpl.
    eexists. split; [reflexivity|].
    split; [rewrite forward_disk; reflexivity|]. split.
    + apply affected_corrupted.
      * rewrite forward_memory. simpl.
        rewrite (error_vector_at_Some _ _ (set_error_num (error_num e - 1) e));
          [reflexivity|]. simpl.
        apply list_lookup_insert_eq. eapply lookup_lt_Some. exact He.
      * rewrite forward_calls_eq. reflexivity.
      * rewrite forward_disk. reflexivity.
    + apply forward_channels_wf. exact Hwf.
Qed.

(** With no occurrence left the entry is inert whatever its error type. *)
Lemma submit_request_spent rc c io s e :
  is_table_kind (io_type io) ->
  error_vector (disk s) !! Z.to_nat (io_type io) = Some e ->
  error_num e = 0 ->
  vbdev_error_submit_request stray rc c io s = Ret (forward rc c io s).
Proof.
  intros HK He Hnum. apply submit_request_no_injection.
  - intros Heq. pose proof (table_kind_not_reset _ HK) as Hne.
    rewrite Heq in Hne. discriminate.
  - right. rewrite (get_error_type_table _ _ _ HK He), Hnum. reflexivity.
Qed.

Lemma run_app (l1 l2 : list request) (s : state) :
  run stray (l1 ++ l2) s = do s1 <- run stray l1 s ; run stray l2 s1.
Proof.
  revert s. induction l1 as [|r l1 IH]; intros s; simpl; [reflexivity|].
  destruct (step stray r s) as [s1|f]; simpl; [apply IH|reflexivity].
Qed.

Lemma submission_of_lookup (K : Z) (reqs : list request) (i : nat) (r : request) :
  Forall (submission_of K) reqs -> reqs !! i = Some r -> submission_of K r.
Proof. intros Hall Hi. eapply Forall_lookup_1; eassumption. Qed.

(** After [i] of the submissions, at most as many as there were
    occurrences, the entry has [i] occurrences fewer. *)
Lemma run_submissions_prefix (K T N : Z) (e : vbdev_error_info)
    (reqs : list request) (s : state) :
  is_table_kind K ->
  T = VBDEV_IO_FAILURE \/ T = VBDEV_IO_NOMEM \/ T = VBDEV_IO_PENDING \/
  (T = VBDEV_IO_CORRUPT_DATA /\ K = SPDK_BDEV_IO_TYPE_WRITE) ->
  error_vector (disk s) !! Z.to_nat K = Some e ->
  error_type e = T -> error_num e = N -> error_qd e = 0 ->
  0 < N < 2 ^ 32 ->
  channels_wf s ->
  Forall (submission_of K) reqs ->
  forall i : nat, (i <= Z.to_nat N)%nat -> (i <= length reqs)%nat ->
  exists si,
    run stray (take i reqs) s = Ret si /\
    error_vector (disk si) !! Z.to_nat K = Some (set_error_num (N - Z.of_nat i) e) /\
    channels_wf si.
Proof.
  intros HK HT He Htype Hnum Hqd HN Hwf Hall.
  induction i as [|i IH]; intros HiN Hilen.
  - exists s. rewrite take_0. simpl. split; [reflexivity|]. split; [|exact Hwf].
    rewrite Z.sub_0_r, <- Hnum, set_error_num_same. exact He.
  - destruct IH as (si & Hrun & Hei & Hwfi); [lia|lia|].
    destruct (lookup_lt_is_Some_2 reqs i) as [r Hr]; [lia|].
    destruct (submission_of_lookup _ _ _ _ Hall Hr) as (rc & c & io & -> & Hio).
    rewrite (take_S_r _ _ _ Hr), run_app, Hrun. simpl.
    rewrite <- Hio in HK, HT, Hei.
    destruct (submit_request_affected rc c io si (set_error_num (N - Z.of_nat i) e) T
                HK HT Hei Htype)
      as (si' & Hstep & Hvec & _ & Hwf'); [simpl; lia|exact Hqd|exact Hwfi|].
    rewrite Hstep. simpl. exists si'. split; [reflexivity|]. split; [|exact Hwf'].
    rewrite Hvec, <- Hio. simpl.
    replace (N - Z.of_nat (S i)) with (N - Z.of_nat i - 1) by lia.
    apply list_lookup_insert_eq. eapply lookup_lt_Some. exact Hei.
Qed.

(** C1 (amended): let the entry of a kind K among read, write, unmap and
    flush hold N > 0 occurrences and a queue-depth threshold of 0, with an
    error type of Fail, NoMemory or Queue, or of CorruptData when K is
    write.  Then each of the next N submissions of kind K, on whatever
    channel, gets that fault (completed as failed, completed as out of
    resources, parked, or its buffers passed through the corruption routine
    and forwarded) and takes exactly one occurrence from the entry, and
    submission N+1 finds no occurrence left and is forwarded untouched. *)
Theorem fault_budget_spent_on_next_submissions (K T N : Z) (e : vbdev_error_info)
    (reqs : list request) (s : state) :
  is_table_kind K ->
  T = VBDEV_IO_FAILURE \/ T = VBDEV_IO_NOMEM \/ T = VBDEV_IO_PENDING \/
  (T = VBDEV_IO_CORRUPT_DATA /\ K = SPDK_BDEV_IO_TYPE_WRITE) ->
  error_vector (disk s) !! Z.to_nat K = Some e ->
  error_type e = T -> error_num e = N -> error_qd e = 0 ->
  0 < N < 2 ^ 32 ->
  channels_wf s ->
  length reqs = Z.to_nat (N + 1) ->
  Forall (submission_of K) reqs ->
  (forall (i : nat) rc c io,
      (i < Z.to_nat N)%nat -> reqs !! i = Some (Submit rc c io) ->
      exists si si',
        run stray (take i reqs) s = Ret si /\
        error_vector (disk si) !! Z.to_nat K = Some (set_error_num (N - Z.of_nat i) e) /\
        vbdev_error_submit_request stray rc c io si = Ret si' /\
        error_vector (disk si') =
          <[Z.to_nat K := set_error_num (N - Z.of_nat i - 1) e]> (error_vector (disk si)) /\
        affected rc c io e si si' T) /\
  (exists rc c io sN sN',
      reqs !! Z.to_nat N = Some (Submit rc c io) /\ io_type io = K /\
      run stray (take (Z.to_nat N) reqs) s = Ret sN /\
      error_vector (disk sN) !! Z.to_nat K = Some (set_error_num 0 e) /\
      vbdev_error_submit_request stray rc c io sN = Ret sN' /\
      forwarded_untouched rc io sN sN').
Proof.
  intros HK HT He Htype Hnum Hqd HN Hwf Hlen Hall.
  pose proof (run_submissions_prefix K T N e reqs s HK HT He Htype Hnum Hqd HN Hwf Hall)
    as Hprefix.
  split.
  - intros i rc c io Hi Hr.
    destruct (Hprefix i) as (si & Hrun & Hei & Hwfi); [lia|lia|].
    destruct (submission_of_lookup _ _ _ _ Hall Hr) as (rc' & c' & io' & [= <- <- <-] & Hio).
    rewrite <- Hio in HK, HT, Hei.
    destruct (submit_request_affected rc c io si (set_error_num (N - Z.of_nat i) e) T
                HK HT Hei Htype)
      as (si' & Hstep & Hvec & Haff & _); [simpl; lia|exact Hqd|exact Hwfi|].
    exists si, si'. rewrite <- Hio. split; [exact Hrun|]. split; [exact Hei|].
    split; [exact Hstep|]. split.
    + rewrite Hvec. reflexivity.
    + eapply affected_entry_num. exact Haff.
  - destruct (Hprefix (Z.to_nat N)) as (sN & Hrun & HeN & HwfN); [lia|lia|].
    replace (N - Z.of_nat (Z.to_nat N)) with 0 in HeN by lia.
    destruct (lookup_lt_is_Some_2 reqs (Z.to_nat N)) as [r Hr]; [lia|].
    destruct (submission_of_lookup _ _ _ _ Hall Hr) as (rc & c & io & -> & Hio).
    exists rc, c, io, sN, (forward rc c io sN).
    split; [exact Hr|]. split; [exact Hio|]. split; [exact Hrun|].
    split; [exact HeN|]. split; [|apply forward_untouched].
    apply (submit_request_spent rc c io sN (set_error_num 0 e)).
    + rewrite Hio. exact HK.
    + rewrite Hio. exact HeN.
    + reflexivity.
Qed.

(** *** Reset *)

Lemma fail_pending_spec (q : list spdk_bdev_io) (s : state) :
  calls (fail_pending q s) = calls s ++ map fail_call q /\
  error_vector (disk (fail_pending q s)) = error_vector (disk s) /\
  channels (fail_pending q s) = channels s /\
  memory (fail_pending q s) = memory s /\
  pending_ios (disk (fail_pending q s)) =
    match q with [] => pending_ios (disk s) | _ :: _ => [] end.
Proof.
  revert s. induction q as [|p q IH]; intros s; simpl.
  - rewrite app_nil_r. repeat split.
  - destruct (IH (emit (spdk_bdev_io_complete p SPDK_BDEV_IO_STATUS_FAILED)
                    (set_disk (mk_disk (error_vector (disk s)) q) s)))
      as (Hc & Hv & Hch & Hm & Hp).
    rewrite Hc, Hv, Hch, Hm, Hp. simpl. rewrite <- app_assoc. simpl.
    repeat split. destruct q; reflexivity.
Qed.

Lemma submit_request_reset rc c io s :
  io_type io = SPDK_BDEV_IO_TYPE_RESET ->
  vbdev_error_submit_request stray rc c io s = Ret (vbdev_error_reset io s).
Proof. intros H. unfold vbdev_error_submit_request. rewrite H. reflexivity. Qed.

Lemma reset_spec io s :
  calls (vbdev_error_reset io s) =
    calls s ++ map fail_call (pending_ios (disk s)) ++
    [spdk_bdev_io_complete io SPDK_BDEV_IO_STATUS_SUCCESS] /\
  pending_ios (disk (vbdev_error_reset io s)) = [] /\
  error_vector (disk (vbdev_error_reset io s)) = error_vector (disk s) /\
  channels (vbdev_error_reset io s) = channels s /\
  memory (vbdev_error_reset io s) = memory s.
Proof.
  unfold vbdev_error_reset.
  destruct (fail_pending_spec (pending_ios (disk s)) s) as (Hc & Hv & Hch & Hm & Hp).
  simpl. rewrite Hc, Hv, Hch, Hm, Hp, <- app_assoc.
  repeat split. destruct (pending_ios (disk s)); reflexivity.
Qed.

(** Submissions that the Queue fault parks join the pending queue at its
    tail, in the order they are submitted, and nothing is completed. *)
Lemma run_parks (K : Z) (parked : list (Z * nat * spdk_bdev_io)) :
  is_table_kind K ->
  Forall (fun p => io_type p.2 = K) parked ->
  forall (e : vbdev_error_info) (s0 : state),
  error_vector (disk s0) !! Z.to_nat K = Some e ->
  error_type e = VBDEV_IO_PENDING -> error_qd e = 0 ->
  Z.of_nat (length parked) <= error_num e < 2 ^ 32 ->
  channels_wf s0 ->
  exists s1,
    run stray (map to_submit parked) s0 = Ret s1 /\
    calls s1 = calls s0 /\
    pending_ios (disk s1) = pending_ios (disk s0) ++ map snd parked.
Proof.
  intros HK Hall. induction Hall as [|[[rc c] io] parked Hio _ IH];
    intros e s0 He Htype Hqd Hnum Hwf; simpl in *.
  - exists s0. rewrite app_nil_r. repeat split.
  - rewrite <- Hio in HK, He.
    destruct (submit_request_affected rc c io s0 e VBDEV_IO_PENDING HK)
      as (s' & Hstep & Hvec & Haff & Hwf'); auto; [lia|].
    unfold to_submit at 1. simpl. rewrite Hstep. simpl.
    inversion Haff as [| |Hc Hp _ _|]; try discriminate.
    destruct (IH (set_error_num (error_num e - 1) e) s') as (s1 & Hrun & Hc1 & Hp1).
    + rewrite Hvec, Hio. apply list_lookup_insert_eq. eapply lookup_lt_Some.
      rewrite <- Hio. exact He.
    + exact Htype.
    + exact Hqd.
    + simpl. lia.
    + exact Hwf'.
    + exists s1. split; [exact Hrun|]. split; [congruence|].
      rewrite Hp1, Hp, <- app_assoc. reflexivity.
Qed.

(** C4: a reset request completes every request of the pending queue as
    failed, head first, leaves the queue empty and then completes itself
    as successful, without reading or changing the fault vector, the
    channels or the data.  The queue holds the parked requests in the
    order of their submission: requests parked by a Queue fault and then
    a reset are failed in that order, before the reset succeeds. *)
Theorem reset_fails_pending_in_order (rc : Z) (c : nat) (io : spdk_bdev_io) (s : state) :
  io_type io = SPDK_BDEV_IO_TYPE_RESET ->
  (exists s',
      vbdev_error_submit_request stray rc c io s = Ret s' /\
      calls s' = calls s ++ map fail_call (pending_ios (disk s)) ++
                 [spdk_bdev_io_complete io SPDK_BDEV_IO_STATUS_SUCCESS] /\
      pending_ios (disk s') = [] /\
      error_vector (disk s') = error_vector (disk s) /\
      channels s' = channels s /\
      memory s' = memory s) /\
  (forall K e (parked : list (Z * nat * spdk_bdev_io)),
      is_table_kind K ->
      Forall (fun p => io_type p.2 = K) parked ->
      error_vector (disk s) !! Z.to_nat K = Some e ->
      error_type e = VBDEV_IO_PENDING -> error_qd e = 0 ->
      Z.of_nat (length parked) <= error_num e < 2 ^ 32 ->
      channels_wf s ->
      exists s1 s2,
        run stray (map to_submit parked) s = Ret s1 /\
        vbdev_error_submit_request stray rc c io s1 = Ret s2 /\
        calls s2 = calls s ++ map fail_call (pending_ios (disk s) ++ map snd parked) ++
                   [spdk_bdev_io_complete io SPDK_BDEV_IO_STATUS_SUCCESS] /\
        pending_ios (disk s2) = []).
Proof.
  intros Hreset. split.
  - exists (vbdev_error_reset io s).
    split; [apply submit_request_reset; exact Hreset|apply reset_spec].
  - intros K e parked HK Hall He Htype Hqd Hnum Hwf.
    destruct (run_parks K parked HK Hall e s He Htype Hqd Hnum Hwf)
      as (s1 & Hrun & Hc & Hp).
    exists s1, (vbdev_error_reset io s1).
    split; [exact Hrun|].
    split; [apply submit_request_reset; exact Hreset|].
    destruct (reset_spec io s1) as (Hc2 & Hp2 & _).
    rewrite Hc2, Hc, Hp. split; [reflexivity|exact Hp2].
Qed.

(** *** In-flight accounting *)

(** C7, the code at the failing input: a read on an idle channel with no
    fault configured, which the base device's submission layer refuses
    with -ENOMEM.  The request is completed as failed at once, nothing is
    outstanding at the base device, and the channel's in-flight counter
    still goes from 0 to 1. *)
Theorem rejected_submission_counted_in_flight :
  io_inflight (channels idle_state 0) = 0 /\
  exists s',
    vbdev_error_submit_request stray (- ENOMEM) 0 plain_read idle_state = Ret s' /\
    calls s' = [spdk_bdev_part_submit_request_ext plain_read;
                spdk_bdev_io_complete plain_read SPDK_BDEV_IO_STATUS_FAILED] /\
    io_inflight (channels s' 0) = 1.
Proof.
  split; [reflexivity|].
  eexists. split; [reflexivity|]. split; reflexivity.
Qed.

(** *** Completion of a forwarded request *)

Lemma complete_request_corrupts_read io s e :
  io_type io = SPDK_BDEV_IO_TYPE_READ ->
  error_vector (disk s) !! Z.to_nat SPDK_BDEV_IO_TYPE_READ = Some e ->
  error_type e = VBDEV_IO_CORRUPT_DATA ->
  0 < error_num e < 2 ^ 32 ->
  0 < io_inflight (channels s (io_channel io)) ->
  vbdev_error_complete_request stray io true s =
  Ret (mk_state
         (mk_disk (<[Z.to_nat SPDK_BDEV_IO_TYPE_READ := set_error_num (error_num e - 1) e]>
                     (error_vector (disk s)))
                  (pending_ios (disk s)))
         (<[io_channel io := mk_channel (wrap64 (io_inflight (channels s (io_channel io)) - 1))]>
            (channels s))
         (vbdev_error_corrupt_io_data io (corrupt_offset e) (corrupt_value e) (memory s))
         (calls s ++ [spdk_bdev_io_complete io SPDK_BDEV_IO_STATUS_SUCCESS])).
Proof.
  intros Hread He Htype Hnum Hfl.
  unfold vbdev_error_complete_request.
  destruct (Z.ltb_spec 0 (io_inflight (channels s (io_channel io)))) as [_|Hle]; [|lia].
  rewrite Hread. simpl.
  rewrite (get_error_type_table _ SPDK_BDEV_IO_TYPE_READ e); [|left; reflexivity|exact He].
  destruct (Z.eqb_spec (error_num e) 0) as [Hz|_]; [lia|].
  rewrite Htype. simpl.
  rewrite (error_num_decrement_Some SPDK_BDEV_IO_TYPE_READ _ e) by exact He.
  rewrite wrap32_small by lia. simpl.
  rewrite (error_vector_at_Some _ SPDK_BDEV_IO_TYPE_READ (set_error_num (error_num e - 1) e)).
  - reflexivity.
  - simpl. apply (list_lookup_insert_eq _ 1%nat). eapply lookup_lt_Some. exact He.
Qed.


(** C10 (amended): when a forwarded read completes successfully and the read
    entry of the fault vector has error type CorruptData and occurrences
    left, the completion takes one occurrence and passes the read buffers
    through the corruption routine before completing the request as
    successful, whatever the channel's in-flight count is against the
    entry's queue-depth threshold.  When the request has a buffer list with a
    non-NULL first base and the corrupt offset falls into one of the buffers,
    the byte there is XORed with the corrupt value, so changed when the value
    is not 0, and every other byte is as it was; when the request has no
    buffer list, or a NULL first base, or buffers no longer than the offset,
    the occurrence is spent all the same and no byte is changed.  A
    submission of the same read on a channel below the threshold is
    forwarded with the entry untouched: the threshold is only looked at on
    submission. *)
Theorem read_corruption_ignores_threshold (io : spdk_bdev_io) (s : state)
    (e : vbdev_error_info) :
  io_type io = SPDK_BDEV_IO_TYPE_READ ->
  error_vector (disk s) !! Z.to_nat SPDK_BDEV_IO_TYPE_READ = Some e ->
  error_type e = VBDEV_IO_CORRUPT_DATA ->
  0 < error_num e < 2 ^ 32 ->
  0 < io_inflight (channels s (io_channel io)) < 2 ^ 64 ->
  (exists s',
      vbdev_error_complete_request stray io true s = Ret s' /\
      error_vector (disk s') =
        <[Z.to_nat SPDK_BDEV_IO_TYPE_READ := set_error_num (error_num e - 1) e]>
          (error_vector (disk s)) /\
      memory s' = vbdev_error_corrupt_io_data io (corrupt_offset e) (corrupt_value e)
                    (memory s) /\
      calls s' = calls s ++ [spdk_bdev_io_complete io SPDK_BDEV_IO_STATUS_SUCCESS] /\
      io_inflight (channels s' (io_channel io)) =
        io_inflight (channels s (io_channel io)) - 1 /\
      (forall l pre v post,
          iovs io = Some l ->
          (forall v0, head l = Some v0 -> iov_base v0 <> 0) ->
          iov_wf l -> 0 <= corrupt_offset e < 2 ^ 64 ->
          l = pre ++ v :: post ->
          iov_total pre <= corrupt_offset e < iov_total pre + iov_len v ->
          (forall a, memory s' a =
                     if decide (a = iov_base v + (corrupt_offset e - iov_total pre))
                     then Z.lxor (memory s a) (corrupt_value e) else memory s a) /\
          (corrupt_value e <> 0 ->
           memory s' (iov_base v + (corrupt_offset e - iov_total pre)) <>
           memory s (iov_base v + (corrupt_offset e - iov_total pre)))) /\
      (iovs io = None \/
       (exists v0 rest, iovs io = Some (v0 :: rest) /\ iov_base v0 = 0) \/
       (exists l, iovs io = Some l /\ iov_wf l /\ 0 <= corrupt_offset e < 2 ^ 64 /\
                  iov_total l <= corrupt_offset e) ->
       memory s' = memory s)) /\
  (forall rc c, io_inflight (channels s c) < error_qd e ->
      exists s',
        vbdev_error_submit_request stray rc c io s = Ret s' /\
        forwarded_untouched rc io s s').
Proof.
  intros Hread He Htype Hnum Hfl. split.
  - eexists. split; [apply complete_request_corrupts_read; try eassumption; lia|].
    simpl. rewrite fn_lookup_insert. simpl.
    split; [reflexivity|]. split; [reflexivity|]. split; [reflexivity|].
    split; [apply wrap64_small; lia|]. split.
    + intros l pre v post Hl Hbase Hwf Hoff Hsplit Hin.
      pose proof (corrupt_io_data_target io l pre v post (corrupt_offset e)
                    (corrupt_value e) (memory s) Hl Hbase Hwf Hoff Hsplit Hin) as Hat.
      split; [exact Hat|].
      intros Hval. rewrite Hat.
      destruct (decide _) as [_|Hne]; [apply lxor_changes; exact Hval|congruence].
    + apply corrupt_io_data_nothing.
  - intros rc c Hlt. exists (forward rc c io s).
    split; [|apply forward_untouched].
    apply submit_request_no_injection.
    + rewrite Hread. discriminate.
    + left. apply Z.ltb_lt. rewrite Hread, (error_vector_at_Some _ _ _ He). exact Hlt.
Qed.


(** *** A fault vector without occurrences *)

Lemma inert_get_error_type (d : error_disk) (K : Z) :
  inert d -> disk_wf d -> vbdev_error_get_error_type stray d K = 0.
Proof.
  intros Hinert Hwf. unfold vbdev_error_get_error_type.
  destruct (_ || _) eqn:Htable; [|reflexivity].
  assert (HK : is_table_kind K).
  { unfold is_table_kind.
    repeat (apply orb_prop in Htable as [Htable|Htable]);
      apply Z.eqb_eq in Htable; auto. }
  destruct (lookup_lt_is_Some_2 (error_vector d) (Z.to_nat K)) as [e He].
  { rewrite Hwf. destruct HK as [-> | [-> | [-> | ->]]]; vm_compute; lia. }
  rewrite (error_vector_at_Some _ _ _ He).
  assert (Hnum : error_num e = 0)
    by (eapply (Forall_lookup_1 _ _ _ _ Hinert); exact He).
  rewrite Hnum. reflexivity.
Qed.

Lemma submit_request_inert rc c io s :
  inert (disk s) -> disk_wf (disk s) -> io_type io <> SPDK_BDEV_IO_TYPE_RESET ->
  vbdev_error_submit_request stray rc c io s = Ret (forward rc c io s).
Proof.
  intros Hinert Hwf Hreset. apply submit_request_no_injection; [exact Hreset|].
  right. apply inert_get_error_type; assumption.
Qed.

Lemma step_inert (r : request) (s s' : state) :
  inert (disk s) -> disk_wf (disk s) -> step stray r s = Ret s' ->
  error_vector (disk s') = error_vector (disk s).
Proof.
  intros Hinert Hwf. destruct r as [rc c io|io success]; simpl.
  - destruct (Z.eq_dec (io_type io) SPDK_BDEV_IO_TYPE_RESET) as [Hreset|Hreset].
    + rewrite (submit_request_reset rc c io s Hreset). intros [= <-].
      apply reset_spec.
    + rewrite (submit_request_inert rc c io s Hinert Hwf Hreset). intros [= <-].
      rewrite forward_disk. reflexivity.
  - unfold vbdev_error_complete_request.
    destruct (0 <? _); [|discriminate].
    destruct (success && _).
    + simpl. rewrite (inert_get_error_type _ _ Hinert Hwf). simpl.
      intros [= <-]. reflexivity.
    + simpl. intros [= <-]. reflexivity.
Qed.

Lemma run_inert (rs : list request) (s s' : state) :
  inert (disk s) -> disk_wf (disk s) -> run stray rs s = Ret s' ->
  error_vector (disk s') = error_vector (disk s).
Proof.
  revert s. induction rs as [|r rs IH]; intros s Hinert Hwf; simpl.
  - intros [= <-]. reflexivity.
  - destruct (step stray r s) as [s1|f] eqn:Hstep; simpl; [|discriminate].
    intros Hrun. pose proof (step_inert r s s1 Hinert Hwf Hstep) as Hvec.
    rewrite <- Hvec. apply IH; [| |exact Hrun].
    + unfold inert. rewrite Hvec. exact Hinert.
    + unfold disk_wf. rewrite Hvec. exact Hwf.
Qed.

(** *** Injection *)

Lemma find_error_disk_lookup name disks k part d :
  find_error_disk name disks = Some (k, part, d) -> disks !! k = Some (part, d).
Proof.
  revert k. induction disks as [|[p0 d0] disks IH]; intros k; simpl; [discriminate|].
  destruct (String.eqb _ _).
  - intros [= <- <- <-]. reflexivity.
  - destruct (find_error_disk name disks) as [[[k' p'] d']|]; simpl; [|discriminate].
    intros [= <- <- <-]. simpl. apply IH. reflexivity.
Qed.

Lemma inject_error_found spdk_bdev_open_ext name opts disks k part d :
  ~ (opts_error_type opts = VBDEV_IO_CORRUPT_DATA /\ opts_corrupt_value opts = 0) ->
  spdk_bdev_open_ext name = 0 ->
  find_error_disk name disks = Some (k, part, d) ->
  vbdev_error_inject_error spdk_bdev_open_ext name opts disks =
  do d' <- inject_into opts d ; Ret (0, <[k := (part, d')]> disks).
Proof.
  intros Hvalid Hopen Hfind. unfold vbdev_error_inject_error.
  destruct (_ && _) eqn:Hguard.
  - exfalso. apply Hvalid. apply andb_prop in Hguard as [H1 H2].
    split; apply Z.eqb_eq; assumption.
  - rewrite Hopen, Hfind. reflexivity.
Qed.

Lemma clear_inert (l : list vbdev_error_info) :
  Forall (fun e => error_num e = 0) (map (set_error_num 0) l).
Proof. apply Forall_map. apply Forall_true. intros e. reflexivity. Qed.

(** C5 (amended): an inject call with the clear-all sentinel that passes
    the validation of the corrupt value (its error type is not CorruptData
    with a corrupt value of 0) sets the occurrences of every entry of the
    device's fault vector to 0 and changes nothing else: error type,
    queue-depth threshold, corrupt offset and corrupt value of every entry,
    the pending queue and the other devices stay as they were; and from
    then on, whatever requests are submitted and completed, every submitted
    request that is not a reset is forwarded to the base device untouched. *)
Theorem clear_all_zeroes_occurrences (spdk_bdev_open_ext : string -> Z)
    (name : string) (opts : vbdev_error_inject_opts)
    (disks : list (spdk_bdev_part * error_disk))
    (k : nat) (part : spdk_bdev_part) (d : error_disk) :
  opts_io_type opts = 0 ->
  ~ (opts_error_type opts = VBDEV_IO_CORRUPT_DATA /\ opts_corrupt_value opts = 0) ->
  spdk_bdev_open_ext name = 0 ->
  find_error_disk name disks = Some (k, part, d) ->
  disk_wf d ->
  exists d',
    disks !! k = Some (part, d) /\
    vbdev_error_inject_error spdk_bdev_open_ext name opts disks =
      Ret (0, <[k := (part, d')]> disks) /\
    pending_ios d' = pending_ios d /\
    length (error_vector d') = length (error_vector d) /\
    (forall i e, error_vector d !! i = Some e ->
       exists e', error_vector d' !! i = Some e' /\
                  error_num e' = 0 /\
                  error_type e' = error_type e /\
                  error_qd e' = error_qd e /\
                  corrupt_offset e' = corrupt_offset e /\
                  corrupt_value e' = corrupt_value e) /\
    (forall s pre si rc c io,
       error_vector (disk s) = error_vector d' ->
       run stray pre s = Ret si ->
       io_type io <> SPDK_BDEV_IO_TYPE_RESET ->
       exists si',
         vbdev_error_submit_request stray rc c io si = Ret si' /\
         forwarded_untouched rc io si si' /\
         error_vector (disk si') = error_vector d').
Proof.
  intros Hclear Hvalid Hopen Hfind Hwf.
  exists (mk_disk (map (set_error_num 0) (error_vector d)) (pending_ios d)).
  split; [apply find_error_disk_lookup with name; exact Hfind|].
  split.
  { rewrite (inject_error_found _ _ _ _ _ _ _ Hvalid Hopen Hfind).
    unfold inject_into. rewrite Hclear. reflexivity. }
  split; [reflexivity|]. simpl.
  split; [apply length_map|].
  split.
  { intros i e He. exists (set_error_num 0 e).
    rewrite list_lookup_fmap, He. repeat split. }
  intros s pre si rc c io Hvec Hrun Hreset.
  assert (Hinert : inert (disk s)) by (unfold inert; rewrite Hvec; apply clear_inert).
  assert (Hswf : disk_wf (disk s)).
  { unfold disk_wf. rewrite Hvec, length_map. exact Hwf. }
  pose proof (run_inert pre s si Hinert Hswf Hrun) as Hsi.
  exists (forward rc c io si).
  split; [|split; [apply forward_untouched|rewrite forward_disk; congruence]].
  apply submit_request_inert; [| |exact Hreset].
  - unfold inert. rewrite Hsi. exact Hinert.
  - unfold disk_wf. rewrite Hsi. exact Hswf.
Qed.

(** *** The length of the fault vector is invariant *)

Lemma fresh_disk_wf : disk_wf fresh_disk.
Proof. reflexivity. Qed.

Lemma error_vector_store_length i e d d' :
  error_vector_store i e d = Ret d' ->
  length (error_vector d') = length (error_vector d).
Proof.
  unfold error_vector_store. destruct (decide _); [|discriminate].
  intros [= <-]. simpl. apply length_insert.
Qed.

Lemma inject_into_length opts d d' :
  inject_into opts d = Ret d' -> length (error_vector d') = length (error_vector d).
Proof.
  unfold inject_into.
  destruct (_ =? 4294967295); [intros [= <-]; apply length_map|].
  destruct (_ =? 0); [intros [= <-]; apply length_map|].
  apply error_vector_store_length.
Qed.

Lemma error_num_decrement_length i s s' :
  error_num_decrement stray i s = Ret s' ->
  length (error_vector (disk s')) = length (error_vector (disk s)).
Proof.
  unfold error_num_decrement.
  destruct (error_vector_store _ _ _) as [d|f] eqn:Hstore; simpl; [|discriminate].
  intros [= <-]. simpl. eapply error_vector_store_length. exact Hstore.
Qed.

Lemma step_length (r : request) (s s' : state) :
  step stray r s = Ret s' ->
  length (error_vector (disk s')) = length (error_vector (disk s)).
Proof.
  destruct r as [rc c io|io success]; simpl.
  - unfold vbdev_error_submit_request.
    destruct (_ =? SPDK_BDEV_IO_TYPE_RESET).
    { intros [= <-]. destruct (reset_spec io s) as (_ & _ & Hv & _). rewrite Hv. reflexivity. }
    repeat match goal with
           | |- context [if ?b then _ else _] => destruct b
           end;
      repeat match goal with
             | |- context [error_num_decrement stray ?i ?x] =>
                 let H := fresh "Hdec" in
                 destruct (error_num_decrement stray i x) eqn:H; simpl;
                 [apply error_num_decrement_length in H|]
             end;
      intros [= <-]; rewrite ?forward_disk; simpl in *; congruence.
  - unfold vbdev_error_complete_request.
    destruct (0 <? _); [|discriminate].
    repeat match goal with
           | |- context [if ?b then _ else _] => destruct b
           end;
      repeat match goal with
             | |- context [error_num_decrement stray ?i ?x] =>
                 let H := fresh "Hdec" in
                 destruct (error_num_decrement stray i x) eqn:H; simpl;
                 [apply error_num_decrement_length in H|]
             end;
      intros [= <-]; simpl in *; congruence.
Qed.

Lemma run_length (rs : list request) (s s' : state) :
  run stray rs s = Ret s' ->
  length (error_vector (disk s')) = length (error_vector (disk s)).
Proof.
  revert s. induction rs as [|r rs IH]; intros s; simpl.
  - intros [= <-]. reflexivity.
  - destruct (step stray r s) as [s1|f] eqn:Hstep; simpl; [|discriminate].
    intros Hrun. rewrite (IH _ Hrun). eapply step_length. exact Hstep.
Qed.

(** *** CorruptData on a kind other than write *)

(** On submission a CorruptData entry only acts on writes: a read, unmap or
    flush is forwarded as it is and the entry keeps its occurrences. *)
Lemma submit_request_corrupt_not_write rc c io s e :
  is_table_kind (io_type io) ->
  io_type io <> SPDK_BDEV_IO_TYPE_WRITE ->
  error_vector (disk s) !! Z.to_nat (io_type io) = Some e ->
  error_type e = VBDEV_IO_CORRUPT_DATA ->
  vbdev_error_submit_request stray rc c io s = Ret (forward rc c io s).
Proof.
  intros HK Hwrite He Htype. unfold vbdev_error_submit_request.
  rewrite (table_kind_not_reset _ HK), (get_error_type_table _ _ _ HK He), Htype.
  destruct (Z.eqb_spec (io_type io) SPDK_BDEV_IO_TYPE_WRITE); [contradiction|].
  destruct (_ <? _); [reflexivity|].
  destruct (error_num e =? 0); reflexivity.
Qed.

(** *** Further properties of the dispatcher *)

Lemma classic_table (K : Z) : is_table_kind K \/ ~ is_table_kind K.
Proof. unfold is_table_kind, SPDK_BDEV_IO_TYPE_READ, SPDK_BDEV_IO_TYPE_WRITE,
         SPDK_BDEV_IO_TYPE_UNMAP, SPDK_BDEV_IO_TYPE_FLUSH. lia. Qed.

Lemma get_error_type_other (d : error_disk) (K : Z) :
  ~ is_table_kind K -> vbdev_error_get_error_type stray d K = 0.
Proof.
  intros HK. unfold vbdev_error_get_error_type.
  destruct (_ || _) eqn:Htable; [|reflexivity].
  exfalso. apply HK. unfold is_table_kind.
  repeat (apply orb_prop in Htable as [Htable|Htable]);
    apply Z.eqb_eq in Htable; auto.
Qed.

Lemma get_error_type_nonzero (d : error_disk) (K : Z) :
  vbdev_error_get_error_type stray d K <> 0 ->
  is_table_kind K /\ error_num (error_vector_at stray d K) <> 0 /\
  vbdev_error_get_error_type stray d K = error_type (error_vector_at stray d K).
Proof.
  intros Hnz. destruct (classic_table K) as [HK|HK].
  - split; [exact HK|]. revert Hnz. unfold vbdev_error_get_error_type.
    replace (_ || _) with true
      by (destruct HK as [-> | [-> | [-> | ->]]]; reflexivity).
    destruct (Z.eqb_spec (error_num (error_vector_at stray d K)) 0); [congruence|].
    auto.
  - rewrite (get_error_type_other d K HK) in Hnz. congruence.
Qed.

(** X3: [vbdev_error_inject_error] takes any value as error type, and the
    switch of [vbdev_error_submit_request] has no case for a value other
    than 0 and the four error types: with such a value in the entry of the
    request's kind, occurrences left and the queue-depth threshold reached,
    the submission ends in [assert(false)]. *)
Theorem submit_request_unknown_error_type (rc : Z) (c : nat) (io : spdk_bdev_io)
    (s : state) (e : vbdev_error_info) :
  is_table_kind (io_type io) ->
  error_vector (disk s) !! Z.to_nat (io_type io) = Some e ->
  error_num e <> 0 ->
  error_qd e <= io_inflight (channels s c) ->
  error_type e <> 0 -> error_type e <> VBDEV_IO_FAILURE ->
  error_type e <> VBDEV_IO_PENDING -> error_type e <> VBDEV_IO_CORRUPT_DATA ->
  error_type e <> VBDEV_IO_NOMEM ->
  vbdev_error_submit_request stray rc c io s = Crash assertion_failed.
Proof.
  intros HK He Hnum Hqd H0 H1 H2 H3 H4. unfold vbdev_error_submit_request.
  rewrite (table_kind_not_reset _ HK), (get_error_type_table _ _ _ HK He).
  rewrite (error_vector_at_Some _ _ _ He).
  destruct (Z.ltb_spec (io_inflight (channels s c)) (error_qd e)); [lia|].
  destruct (Z.eqb_spec (error_num e) 0); [contradiction|].
  destruct (Z.eqb_spec (error_type e) VBDEV_IO_FAILURE); [contradiction|].
  destruct (Z.eqb_spec (error_type e) VBDEV_IO_NOMEM); [contradiction|].
  destruct (Z.eqb_spec (error_type e) VBDEV_IO_PENDING); [contradiction|].
  destruct (Z.eqb_spec (error_type e) VBDEV_IO_CORRUPT_DATA); [contradiction|].
  destruct (Z.eqb_spec (error_type e) 0); [contradiction|].
  reflexivity.
Qed.

(** X4: a request whose kind is neither read, write, unmap, flush nor reset
    is never faulted: [vbdev_error_get_error_type] answers 0 for it without
    looking at the fault vector, so whatever is configured the request is
    handed to the base device untouched. *)
Theorem other_kinds_always_forwarded (rc : Z) (c : nat) (io : spdk_bdev_io) (s : state) :
  ~ is_table_kind (io_type io) ->
  io_type io <> SPDK_BDEV_IO_TYPE_RESET ->
  exists s',
    vbdev_error_submit_request stray rc c io s = Ret s' /\
    forwarded_untouched rc io s s'.
Proof.
  intros HK Hreset. exists (forward rc c io s).
  split; [|apply forward_untouched].
  apply submit_request_no_injection; [exact Hreset|].
  right. apply get_error_type_other. exact HK.
Qed.

(** X5: the completion of a forwarded request that failed, or that is not a
    read, or that finds no CorruptData fault with occurrences left in the
    read entry, passes the status on and does nothing else but count the
    request out: the fault vector keeps its occurrences and the data is not
    touched. *)
Theorem completion_without_corruption (io : spdk_bdev_io) (success : bool) (s : state) :
  0 < io_inflight (channels s (io_channel io)) ->
  success = false \/ io_type io <> SPDK_BDEV_IO_TYPE_READ \/
  vbdev_error_get_error_type stray (disk s) SPDK_BDEV_IO_TYPE_READ
    <> VBDEV_IO_CORRUPT_DATA ->
  exists s',
    vbdev_error_complete_request stray io success s = Ret s' /\
    disk s' = disk s /\ memory s' = memory s /\
    calls s' = calls s ++ [spdk_bdev_io_complete io (completion_status success)] /\
    io_inflight (channels s' (io_channel io)) =
      wrap64 (io_inflight (channels s (io_channel io)) - 1).
Proof.
  intros Hfl Hcase. unfold vbdev_error_complete_request.
  destruct (Z.ltb_spec 0 (io_inflight (channels s (io_channel io)))); [|lia].
  assert (Hdone : forall s0 : state,
            exists s', Ret (emit (spdk_bdev_io_complete io (completion_status success))
                              (set_inflight (io_channel io)
                                 (wrap64 (io_inflight (channels s (io_channel io)) - 1)) s))
                       = Ret s' /\
              disk s' = disk s /\ memory s' = memory s /\
              calls s' = calls s ++ [spdk_bdev_io_complete io (completion_status success)] /\
              io_inflight (channels s' (io_channel io)) =
                wrap64 (io_inflight (channels s (io_channel io)) - 1)).
  { intros _. eexists. split; [reflexivity|]. simpl.
    rewrite fn_lookup_insert. repeat split. }
  fold (completion_status success).
  destruct (success && (io_type io =? SPDK_BDEV_IO_TYPE_READ)) eqn:Hguard;
    [|exact (Hdone s)].
  apply andb_prop in Hguard as [-> Hread]. apply Z.eqb_eq in Hread.
  destruct Hcase as [Hs | [Hk | Hty]]; [discriminate|contradiction|].
  rewrite Hread. simpl disk.
  destruct (Z.eqb_spec (vbdev_error_get_error_type stray (disk s) SPDK_BDEV_IO_TYPE_READ)
              VBDEV_IO_CORRUPT_DATA); [contradiction|].
  exact (Hdone s).
Qed.

(** What a decrement that returns did. *)
Lemma error_num_decrement_Ret (i : Z) (s s' : state) :
  error_num_decrement stray i s = Ret s' ->
  exists e,
    error_vector (disk s) !! Z.to_nat i = Some e /\
    error_vector_at stray (disk s) i = e /\
    s' = set_disk (mk_disk (<[Z.to_nat i := set_error_num (wrap32 (error_num e - 1)) e]>
                              (error_vector (disk s)))
                           (pending_ios (disk s))) s.
Proof.
  unfold error_num_decrement, error_vector_store.
  destruct (decide _) as [Hlt|]; [|discriminate].
  destruct (lookup_lt_is_Some_2 _ _ Hlt) as [e He].
  rewrite (error_vector_at_Some _ _ _ He). simpl. intros [= <-].
  exists e. auto.
Qed.

Lemma error_num_decrement_wf (i : Z) (s : state) :
  (Z.to_nat i < length (error_vector (disk s)))%nat ->
  exists s', error_num_decrement stray i s = Ret s'.
Proof.
  intros Hlt. destruct (lookup_lt_is_Some_2 _ _ Hlt) as [e He].
  rewrite (error_num_decrement_Some _ _ _ He). eexists. reflexivity.
Qed.

(** The completion callback returns whenever the request is counted as in
    flight, and then counts it out on its channel. *)
Lemma complete_request_returns (io : spdk_bdev_io) (success : bool) (s : state) :
  0 < io_inflight (channels s (io_channel io)) ->
  disk_wf (disk s) ->
  exists s',
    vbdev_error_complete_request stray io success s = Ret s' /\
    channels s' = <[io_channel io :=
                      mk_channel (wrap64 (io_inflight (channels s (io_channel io)) - 1))]>
                    (channels s).
Proof.
  intros Hfl Hwf. unfold vbdev_error_complete_request.
  destruct (Z.ltb_spec 0 (io_inflight (channels s (io_channel io)))); [|lia].
  destruct (success && _) eqn:Hguard; [|eexists; split; reflexivity].
  destruct (_ =? VBDEV_IO_CORRUPT_DATA); [|eexists; split; reflexivity].
  apply andb_prop in Hguard as [_ Hread]. apply Z.eqb_eq in Hread. rewrite Hread.
  match goal with
  | |- context [error_num_decrement stray ?i ?x] =>
      destruct (error_num_decrement_wf i x) as [s1 Hs1];
      [simpl; rewrite Hwf; vm_compute; lia|];
      rewrite Hs1; apply error_num_decrement_Ret in Hs1 as (e & _ & _ & ->)
  end.
  simpl. eexists. split; reflexivity.
Qed.

(** X6: a request forwarded and then completed leaves every channel's
    in-flight counter where it was before the submission; and a completion
    on a channel that counts no request in flight stops at the assertion
    instead of wrapping the counter around. *)
Theorem forward_then_complete_restores_in_flight (io : spdk_bdev_io) (success : bool)
    (s : state) :
  0 <= io_inflight (channels s (io_channel io)) < 2 ^ 64 - 1 ->
  disk_wf (disk s) ->
  (exists s',
      vbdev_error_complete_request stray io success (forward 0 (io_channel io) io s)
        = Ret s' /\
      forall c, io_inflight (channels s' c) = io_inflight (channels s c)) /\
  (io_inflight (channels s (io_channel io)) = 0 ->
   vbdev_error_complete_request stray io success s = Crash assertion_failed).
Proof.
  intros Hfl Hwf. split.
  - pose proof (forward_inflight 0 (io_channel io) io s) as Hin.
    rewrite wrap64_small in Hin by lia.
    destruct (complete_request_returns io success (forward 0 (io_channel io) io s))
      as (s' & Hs' & Hch).
    + lia.
    + rewrite forward_disk. exact Hwf.
    + exists s'. split; [exact Hs'|]. intros c. rewrite Hch.
      destruct (decide (io_channel io = c)) as [<-|Hne].
      * rewrite fn_lookup_insert, Hin. simpl.
        rewrite wrap64_small by lia. lia.
      * rewrite fn_lookup_insert_ne by exact Hne.
        rewrite forward_inflight_ne by exact Hne. reflexivity.
  - intros Hzero. unfold vbdev_error_complete_request. rewrite Hzero. reflexivity.
Qed.

(** *** The I/O path only consumes occurrences *)

Lemma Forall2_spent_refl (l : list vbdev_error_info) : Forall2 spent l l.
Proof.
  apply Forall_Forall2_diag, Forall_true. intros e. unfold spent. auto 10.
Qed.

Lemma error_num_decrement_spent (i : Z) (s s' : state) :
  occurrences_wf (disk s) ->
  error_num (error_vector_at stray (disk s) i) <> 0 ->
  error_num_decrement stray i s = Ret s' ->
  Forall2 spent (error_vector (disk s)) (error_vector (disk s')).
Proof.
  intros Hwf Hnz Hdec.
  apply error_num_decrement_Ret in Hdec as (e & He & Hat & ->). simpl.
  rewrite Hat in Hnz.
  pose proof (Forall_lookup_1 _ _ _ _ Hwf He) as Hrange. simpl in Hrange.
  rewrite wrap32_small by lia.
  rewrite <- (list_insert_id _ _ _ He) at 1.
  apply Forall2_insert; [apply Forall2_spent_refl|].
  unfold spent. simpl. repeat split. right. lia.
Qed.

Lemma submit_request_spent_entries rc c io s s' :
  occurrences_wf (disk s) ->
  vbdev_error_submit_request stray rc c io s = Ret s' ->
  Forall2 spent (error_vector (disk s)) (error_vector (disk s')).
Proof.
  intros Hwf. unfold vbdev_error_submit_request.
  destruct (_ =? SPDK_BDEV_IO_TYPE_RESET).
  { intros [= <-]. destruct (reset_spec io s) as (_ & _ & -> & _).
    apply Forall2_spent_refl. }
  destruct (_ <? _).
  { simpl. intros [= <-]. rewrite forward_disk. apply Forall2_spent_refl. }
  destruct (Z.eq_dec (vbdev_error_get_error_type stray (disk s) (io_type io)) 0)
    as [Hz|Hnz].
  { rewrite Hz. simpl. intros [= <-]. rewrite forward_disk. apply Forall2_spent_refl. }
  destruct (get_error_type_nonzero _ _ Hnz) as (_ & Hnum & _).
  repeat match goal with
         | |- context [if ?b then _ else _] => destruct b
         end;
    try discriminate;
    repeat match goal with
           | |- context [error_num_decrement stray ?i ?x] =>
               let H := fresh "Hdec" in
               destruct (error_num_decrement stray i x) eqn:H; simpl; [|discriminate];
               apply error_num_decrement_spent in H; [|assumption|assumption]
           end;
    intros [= <-]; rewrite ?forward_disk; simpl in *;
    first [assumption | apply Forall2_spent_refl].
Qed.

Lemma complete_request_spent_entries io success s s' :
  occurrences_wf (disk s) ->
  vbdev_error_complete_request stray io success s = Ret s' ->
  Forall2 spent (error_vector (disk s)) (error_vector (disk s')).
Proof.
  intros Hwf. unfold vbdev_error_complete_request.
  destruct (0 <? _); [|discriminate].
  destruct (success && _); [|simpl; intros [= <-]; apply Forall2_spent_refl].
  destruct (Z.eqb_spec (vbdev_error_get_error_type stray
                          (disk (set_inflight (io_channel io)
                                   (wrap64 (io_inflight (channels s (io_channel io)) - 1)) s))
                          (io_type io)) VBDEV_IO_CORRUPT_DATA) as [Hc|_];
    [|simpl; intros [= <-]; apply Forall2_spent_refl].
  destruct (get_error_type_nonzero _ _ ltac:(rewrite Hc; discriminate)) as (_ & Hnum & _).
  match goal with
  | |- context [error_num_decrement stray ?i ?x] =>
      destruct (error_num_decrement stray i x) eqn:Hdec; simpl; [|discriminate];
      apply error_num_decrement_spent in Hdec; [|assumption|assumption]
  end.
  intros [= <-]. simpl in *. assumption.
Qed.

Lemma spent_consumed (e e' : vbdev_error_info) :
  0 <= error_num e < 2 ^ 32 -> spent e e' ->
  consumed e e' /\ 0 <= error_num e' < 2 ^ 32.
Proof. unfold spent, consumed. intros Hr (H1 & H2 & H3 & H4 & H5). repeat split; try assumption; lia. Qed.

Lemma consumed_trans (e1 e2 e3 : vbdev_error_info) :
  consumed e1 e2 -> consumed e2 e3 -> consumed e1 e3.
Proof. unfold consumed. intros (? & ? & ? & ? & ?) (? & ? & ? & ? & ?). repeat split; try congruence; lia. Qed.

Lemma step_consumed (r : request) (s s' : state) :
  occurrences_wf (disk s) -> step stray r s = Ret s' ->
  Forall2 consumed (error_vector (disk s)) (error_vector (disk s')) /\
  occurrences_wf (disk s').
Proof.
  intros Hwf Hstep.
  assert (Hspent : Forall2 spent (error_vector (disk s)) (error_vector (disk s'))).
  { destruct r; simpl in Hstep.
    - eapply submit_request_spent_entries; eassumption.
    - eapply complete_request_spent_entries; eassumption. }
  unfold occurrences_wf in *. clear Hstep.
  induction Hspent as [|e e' l l' He _ IH]; [split; constructor|].
  inversion Hwf as [|? ? Hr Hl]; subst.
  destruct (spent_consumed e e' Hr He) as [Hc Hr'].
  destruct (IH Hl) as [IH1 IH2].
  split; constructor; assumption.
Qed.

(** X7: requests only consume occurrences.  Along any sequence of
    submissions and completions that runs through, every entry of the fault
    vector keeps its error type, queue-depth threshold, corrupt offset and
    corrupt value, and its number of occurrences never grows and never wraps
    below zero: only [vbdev_error_inject_error] configures a fault. *)
Theorem run_only_consumes_occurrences (rs : list request) (s s' : state) :
  occurrences_wf (disk s) ->
  run stray rs s = Ret s' ->
  Forall2 consumed (error_vector (disk s)) (error_vector (disk s')) /\
  occurrences_wf (disk s').
Proof.
  revert s. induction rs as [|r rs IH]; intros s Hwf; simpl.
  - intros [= <-]. split; [|exact Hwf].
    apply Forall_Forall2_diag. unfold occurrences_wf in Hwf.
    eapply Forall_impl; [exact Hwf|]. intros e He. simpl in He. unfold consumed. repeat split; lia.
  - destruct (step stray r s) as [s1|f] eqn:Hstep; simpl; [|discriminate].
    intros Hrun. destruct (step_consumed r s s1 Hwf Hstep) as [Hc1 Hwf1].
    destruct (IH s1 Hwf1 Hrun) as [Hc2 Hwf2].
    split; [|exact Hwf2].
    eapply Forall2_trans; [|exact Hc1|exact Hc2]. apply consumed_trans.
Qed.

(** *** The pending queue *)

Lemma error_num_decrement_pending (i : Z) (s s' : state) :
  error_num_decrement stray i s = Ret s' ->
  pending_ios (disk s') = pending_ios (disk s) /\ calls s' = calls s.
Proof.
  intros H. apply error_num_decrement_Ret in H as (e & _ & _ & ->). split; reflexivity.
Qed.

(** A step that is not a reset leaves the pending queue as it is or parks
    the submitted request at its tail, and a request that is parked is
    neither completed nor handed to the base device. *)
Lemma step_pending (r : request) (s s' : state) :
  ~ is_reset r -> step stray r s = Ret s' ->
  pending_ios (disk s') = pending_ios (disk s) \/
  exists rc c io, r = Submit rc c io /\
                  pending_ios (disk s') = pending_ios (disk s) ++ [io] /\
                  calls s' = calls s.
Proof.
  intros Hreset. destruct r as [rc c io|io success]; simpl.
  - unfold vbdev_error_submit_request.
    destruct (Z.eqb_spec (io_type io) SPDK_BDEV_IO_TYPE_RESET) as [Heq|_].
    { exfalso. apply Hreset. exists rc, c, io. auto. }
    repeat match goal with
           | |- context [if ?b then _ else _] => destruct b
           end;
      try discriminate;
      repeat match goal with
             | |- context [error_num_decrement stray ?i ?x] =>
                 let H := fresh "Hdec" in
                 destruct (error_num_decrement stray i x) eqn:H; simpl; [|discriminate];
                 apply error_num_decrement_pending in H as [? ?]
             end;
      intros [= <-]; rewrite ?forward_disk; simpl in *;
      first [left; congruence | right; exists rc, c, io; auto].
  - unfold vbdev_error_complete_request.
    destruct (0 <? _); [|discriminate].
    repeat match goal with
           | |- context [if ?b then _ else _] => destruct b
           end;
      repeat match goal with
             | |- context [error_num_decrement stray ?i ?x] =>
                 let H := fresh "Hdec" in
                 destruct (error_num_decrement stray i x) eqn:H; simpl; [|discriminate];
                 apply error_num_decrement_pending in H as [? ?]
             end;
      intros [= <-]; simpl in *; left; congruence.
Qed.

(** X8: a parked request stays parked until a reset: along any sequence of
    submissions and completions without a reset request, the pending queue
    only grows at its tail, so the requests parked before are still there,
    in the same order. *)
Theorem pending_queue_only_grows_without_reset (rs : list request) (s s' : state) :
  Forall (fun r => ~ is_reset r) rs ->
  run stray rs s = Ret s' ->
  pending_ios (disk s) `prefix_of` pending_ios (disk s').
Proof.
  intros Hall. revert s. induction Hall as [|r rs Hr _ IH]; intros s; simpl.
  - intros [= <-]. reflexivity.
  - destruct (step stray r s) as [s1|f] eqn:Hstep; simpl; [|discriminate].
    intros Hrun. specialize (IH s1 Hrun).
    destruct (step_pending r s s1 Hr Hstep) as [Heq|(rc & c & io & _ & Heq & _)].
    + rewrite <- Heq. exact IH.
    + rewrite Heq in IH. eapply prefix_app_l. exact IH.
Qed.

(** *** Injection for all kinds *)

Lemma lookup_map_const {A B} (x : B) (l : list A) (i : nat) :
  (i < length l)%nat -> map (fun _ => x) l !! i = Some x.
Proof.
  intros Hlt. rewrite list_lookup_fmap.
  destruct (lookup_lt_is_Some_2 l i Hlt) as [y ->]. reflexivity.
Qed.

(** X9: an inject call with the all-kinds sentinel 0xffffffff writes the
    same five values into every entry of the device's fault vector and leaves
    the pending queue alone; with N > 0 occurrences, threshold 0 and an
    error type of Fail, NoMemory or Queue (or CorruptData for a write), the
    next read, write, unmap or flush request, whichever comes, gets that
    fault and takes one occurrence from the entry of its own kind only. *)
Theorem inject_all_kinds_faults_every_kind (spdk_bdev_open_ext : string -> Z)
    (name : string) (opts : vbdev_error_inject_opts)
    (disks : list (spdk_bdev_part * error_disk))
    (k : nat) (part : spdk_bdev_part) (d : error_disk) :
  opts_io_type opts = 4294967295 ->
  ~ (opts_error_type opts = VBDEV_IO_CORRUPT_DATA /\ opts_corrupt_value opts = 0) ->
  spdk_bdev_open_ext name = 0 ->
  find_error_disk name disks = Some (k, part, d) ->
  disk_wf d ->
  exists d',
    vbdev_error_inject_error spdk_bdev_open_ext name opts disks =
      Ret (0, <[k := (part, d')]> disks) /\
    pending_ios d' = pending_ios d /\
    error_vector d' = replicate (length (error_vector d)) (opts_info opts) /\
    (0 < opts_error_num opts < 2 ^ 32 -> opts_error_qd opts = 0 ->
     forall s rc c io,
       disk s = d' -> channels_wf s ->
       is_table_kind (io_type io) ->
       opts_error_type opts = VBDEV_IO_FAILURE \/ opts_error_type opts = VBDEV_IO_NOMEM \/
       opts_error_type opts = VBDEV_IO_PENDING \/
       (opts_error_type opts = VBDEV_IO_CORRUPT_DATA /\
        io_type io = SPDK_BDEV_IO_TYPE_WRITE) ->
       exists s',
         vbdev_error_submit_request stray rc c io s = Ret s' /\
         affected rc c io (opts_info opts) s s' (opts_error_type opts) /\
         error_vector (disk s') =
           <[Z.to_nat (io_type io) :=
               set_error_num (opts_error_num opts - 1) (opts_info opts)]>
             (error_vector (disk s))).
Proof.
  intros Hall Hvalid Hopen Hfind Hwf.
  exists (mk_disk (map (fun _ => opts_info opts) (error_vector d)) (pending_ios d)).
  split.
  { rewrite (inject_error_found _ _ _ _ _ _ _ Hvalid Hopen Hfind).
    unfold inject_into. rewrite Hall. reflexivity. }
  split; [reflexivity|]. split.
  { simpl. induction (error_vector d) as [|e l IH]; simpl; [reflexivity|].
    rewrite IH. reflexivity. }
  intros Hnum Hqd s rc c io Hdisk Hchan HK HT.
  assert (He : error_vector (disk s) !! Z.to_nat (io_type io) = Some (opts_info opts)).
  { rewrite Hdisk. simpl. apply lookup_map_const. rewrite Hwf.
    destruct HK as [-> | [-> | [-> | ->]]]; vm_compute; lia. }
  destruct (submit_request_affected rc c io s (opts_info opts) (opts_error_type opts)
              HK HT He eq_refl Hnum Hqd Hchan) as (s' & Hs' & Hvec & Haff & _).
  exists s'. auto.
Qed.

(** *** The queue-depth threshold *)

(** X21: the threshold is exact and looks at the submitting channel only:
    with occurrences left and an error type of Fail, NoMemory or Queue (or
    CorruptData for a write), a request submitted on a channel whose
    in-flight count is below the threshold of its kind's entry is forwarded
    untouched, and one submitted on a channel whose count has reached the
    threshold gets the fault and takes one occurrence, whatever the other
    channels count. *)
Theorem fault_applies_from_threshold (rc : Z) (c : nat) (io : spdk_bdev_io) (s : state)
    (e : vbdev_error_info) (T : Z) :
  is_table_kind (io_type io) ->
  T = VBDEV_IO_FAILURE \/ T = VBDEV_IO_NOMEM \/ T = VBDEV_IO_PENDING \/
  (T = VBDEV_IO_CORRUPT_DATA /\ io_type io = SPDK_BDEV_IO_TYPE_WRITE) ->
  error_vector (disk s) !! Z.to_nat (io_type io) = Some e ->
  error_type e = T -> 0 < error_num e < 2 ^ 32 ->
  (io_inflight (channels s c) < error_qd e ->
   exists s',
     vbdev_error_submit_request stray rc c io s = Ret s' /\
     forwarded_untouched rc io s s') /\
  (error_qd e <= io_inflight (channels s c) ->
   exists s',
     vbdev_error_submit_request stray rc c io s = Ret s' /\
     error_vector (disk s') =
       <[Z.to_nat (io_type io) := set_error_num (error_num e - 1) e]>
         (error_vector (disk s)) /\
     affected rc c io e s s' T).
Proof.
  intros HK HT He Htype Hnum. split.
  - intros Hlt. exists (forward rc c io s). split; [|apply forward_untouched].
    apply submit_request_no_injection.
    + intros Heq. pose proof (table_kind_not_reset _ HK) as Hne.
      rewrite Heq in Hne. discriminate.
    + left. apply Z.ltb_lt. rewrite (error_vector_at_Some _ _ _ He). exact Hlt.
  - intros Hge. unfold vbdev_error_submit_request.
    rewrite (table_kind_not_reset _ HK), (get_error_type_table _ _ _ HK He).
    rewrite (error_vector_at_Some _ _ _ He).
    destruct (Z.ltb_spec (io_inflight (channels s c)) (error_qd e)); [lia|].
    destruct (Z.eqb_spec (error_num e) 0); [lia|].
    rewrite Htype.
    assert (Hdec : wrap32 (error_num e - 1) = error_num e - 1)
      by (apply wrap32_small; lia).
    destruct HT as [-> | [-> | [-> | [-> Hwrite]]]].
    + rewrite (error_num_decrement_Some _ _ _ He), Hdec. simpl.
      eexists. split; [reflexivity|]. split; [reflexivity|].
      apply affected_failed; reflexivity.
    + rewrite (error_num_decrement_Some _ _ _ He), Hdec. simpl.
      eexists. split; [reflexivity|]. split; [reflexivity|].
      apply affected_nomem; reflexivity.
    + rewrite (error_num_decrement_Some _ (pending_insert_tail io s) e He), Hdec. simpl.
      eexists. split; [reflexivity|]. split; [reflexivity|].
      apply affected_queued; reflexivity.
    + rewrite Hwrite in *. simpl.
      rewrite (error_num_decrement_Some _ _ _ He), Hdec. simpl.
      eexists. split; [reflexivity|].
      split; [rewrite forward_disk; reflexivity|].
      apply affected_corrupted.
      * rewrite forward_memory. simpl.
        rewrite (error_vector_at_Some _ _ (set_error_num (error_num e - 1) e));
          [reflexivity|]. simpl.
        apply list_lookup_insert_eq. eapply lookup_lt_Some. exact He.
      * rewrite forward_calls_eq. reflexivity.
      * rewrite forward_disk. reflexivity.
Qed.

End DispatcherProofs.

(** ** The configuration API *)

(** C6: an inject call whose error type is CorruptData and whose corrupt
    value is 0 returns -EINVAL, whatever its other arguments are, and every
    device is left exactly as it was before the call. *)
Theorem corrupt_data_zero_value_rejected (spdk_bdev_open_ext : string -> Z)
    (name : string) (opts : vbdev_error_inject_opts)
    (disks : list (spdk_bdev_part * error_disk)) :
  opts_error_type opts = VBDEV_IO_CORRUPT_DATA ->
  opts_corrupt_value opts = 0 ->
  vbdev_error_inject_error spdk_bdev_open_ext name opts disks = Ret (- EINVAL, disks).
Proof.
  intros Htype Hval. unfold vbdev_error_inject_error.
  rewrite Htype, Hval. reflexivity.
Qed.

(** C9: for an [io_type] other than the two sentinels 0 and 0xffffffff the
    call stores to [error_vector[io_type]] without looking at the value; the
    array has [SPDK_BDEV_IO_TYPE_RESET] entries, so the store is within the
    array exactly when [io_type < SPDK_BDEV_IO_TYPE_RESET], and for every
    larger value, [SPDK_BDEV_IO_TYPE_RESET] included, it is a store past the
    end of the array. *)
Theorem specific_kind_store_bounds (spdk_bdev_open_ext : string -> Z)
    (name : string) (opts : vbdev_error_inject_opts)
    (disks : list (spdk_bdev_part * error_disk))
    (k : nat) (part : spdk_bdev_part) (d : error_disk) :
  opts_io_type opts <> 0 ->
  opts_io_type opts <> 4294967295 ->
  0 <= opts_io_type opts ->
  ~ (opts_error_type opts = VBDEV_IO_CORRUPT_DATA /\ opts_corrupt_value opts = 0) ->
  spdk_bdev_open_ext name = 0 ->
  find_error_disk name disks = Some (k, part, d) ->
  disk_wf d ->
  (opts_io_type opts < SPDK_BDEV_IO_TYPE_RESET ->
   vbdev_error_inject_error spdk_bdev_open_ext name opts disks =
   Ret (0, <[k := (part, mk_disk (<[Z.to_nat (opts_io_type opts) := opts_info opts]>
                                    (error_vector d))
                                 (pending_ios d))]> disks)) /\
  (SPDK_BDEV_IO_TYPE_RESET <= opts_io_type opts ->
   vbdev_error_inject_error spdk_bdev_open_ext name opts disks =
   Crash (out_of_bounds_store (opts_io_type opts))) /\
  ((exists r, vbdev_error_inject_error spdk_bdev_open_ext name opts disks = Ret r) <->
   opts_io_type opts < SPDK_BDEV_IO_TYPE_RESET).
Proof.
  intros Hnz Hnall Hnn Hvalid Hopen Hfind Hwf.
  rewrite (inject_error_found _ _ _ _ _ _ _ Hvalid Hopen Hfind).
  unfold inject_into, error_vector_store.
  destruct (Z.eqb_spec (opts_io_type opts) 4294967295); [contradiction|].
  destruct (Z.eqb_spec (opts_io_type opts) 0); [contradiction|].
  rewrite Hwf. unfold SPDK_BDEV_IO_TYPE_RESET in *.
  destruct (decide _) as [Hin|Hout]; simpl.
  - split; [reflexivity|]. split; [lia|].
    split; [lia|]. intros _. eexists. reflexivity.
  - split; [lia|]. split; [reflexivity|].
    split; [intros [r Hr]; discriminate|lia].
Qed.

(** ** The configuration registry and the life cycle *)

Lemma config_find_app_None name cfgs uuid :
  vbdev_error_config_find_by_base_name name cfgs = None ->
  vbdev_error_config_find_by_base_name name (cfgs ++ [mk_config name uuid])
  = Some (mk_config name uuid).
Proof.
  unfold vbdev_error_config_find_by_base_name.
  induction cfgs as [|cfg cfgs IH]; simpl.
  - intros _. rewrite String.eqb_refl. reflexivity.
  - destruct (String.eqb (base_bdev cfg) name); [discriminate|exact IH].
Qed.

Lemma config_unlink_app_None name cfgs uuid :
  vbdev_error_config_find_by_base_name name cfgs = None ->
  config_unlink name (cfgs ++ [mk_config name uuid]) = cfgs.
Proof.
  unfold vbdev_error_config_find_by_base_name.
  induction cfgs as [|cfg cfgs IH]; simpl.
  - intros _. rewrite String.eqb_refl. reflexivity.
  - destruct (String.eqb (base_bdev cfg) name); [discriminate|].
    intros H. rewrite (IH H). reflexivity.
Qed.

Lemma config_add_fresh env name uuid cfgs :
  vbdev_error_config_find_by_base_name name cfgs = None ->
  config_calloc_ok env = true -> config_strdup_ok env = true ->
  vbdev_error_config_add env name uuid cfgs = (0, cfgs ++ [mk_config name uuid]).
Proof.
  intros Hfind Hc Hs. unfold vbdev_error_config_add. rewrite Hfind, Hc, Hs. reflexivity.
Qed.

(** A construction that fails leaves the list of disks alone. *)
Lemma _vbdev_error_create_failed env name uuid disks :
  fst (_vbdev_error_create env name uuid disks) <> 0 ->
  snd (_vbdev_error_create env name uuid disks) = disks.
Proof.
  unfold _vbdev_error_create.
  destruct (negb (_ =? 0)); [reflexivity|].
  destruct (negb (disk_calloc_ok env)); [reflexivity|].
  destruct (negb (spdk_sprintf_alloc_ok env)); [reflexivity|].
  destruct (negb (_ =? 0)); [reflexivity|].
  simpl. intros H. contradiction.
Qed.

Lemma _vbdev_error_create_constructs env name uuid disks :
  spdk_bdev_part_base_construct_ext env name = 0 ->
  disk_calloc_ok env = true -> spdk_sprintf_alloc_ok env = true ->
  spdk_bdev_part_construct env ("EE_" +:+ name)%string = 0 ->
  _vbdev_error_create env name uuid disks =
  (0, disks ++ [(mk_part ("EE_" +:+ name)%string uuid name, fresh_disk)]).
Proof.
  intros Hbase Hc Hs Hpart. unfold _vbdev_error_create, part_registered.
  rewrite Hbase, Hc, Hs, Hpart. simpl.
  destruct (Z.eqb_spec uuid 0) as [->|]; reflexivity.
Qed.


(** ** The theorems at concrete inputs *)

(** C1, counterexample: the unmap entry holds one occurrence of CorruptData
    with threshold 0; the next unmap request is forwarded untouched and the
    entry keeps its occurrence, where the claim has the request affected and
    the occurrence spent. *)
Lemma corrupt_data_on_unmap_takes_no_occurrence :
  error_vector (disk unmap_corrupt_state) !! Z.to_nat SPDK_BDEV_IO_TYPE_UNMAP
    = Some unmap_corrupt_entry /\
  exists s',
    vbdev_error_submit_request no_stray 0 0 unmap_request unmap_corrupt_state = Ret s' /\
    forwarded_untouched 0 unmap_request unmap_corrupt_state s' /\
    error_vector (disk s') !! Z.to_nat SPDK_BDEV_IO_TYPE_UNMAP = Some unmap_corrupt_entry.
Proof.
  split; [reflexivity|].
  eexists. split; [reflexivity|].
  split; [|reflexivity].
  split; [reflexivity|]. split; reflexivity.
Qed.

Lemma fault_budget_spent_on_next_submissions_witness :
  exists rc c io sN sN',
    three_reads !! Z.to_nat 2 = Some (Submit rc c io) /\
    io_type io = SPDK_BDEV_IO_TYPE_READ /\
    run no_stray (take (Z.to_nat 2) three_reads) failing_reads_state = Ret sN /\
    error_vector (disk sN) !! Z.to_nat SPDK_BDEV_IO_TYPE_READ
      = Some (set_error_num 0 (mk_info VBDEV_IO_FAILURE 2 0 0 0)) /\
    vbdev_error_submit_request no_stray rc c io sN = Ret sN' /\
    forwarded_untouched rc io sN sN'.
Proof.
  destruct (fault_budget_spent_on_next_submissions no_stray
              SPDK_BDEV_IO_TYPE_READ VBDEV_IO_FAILURE 2
              (mk_info VBDEV_IO_FAILURE 2 0 0 0) three_reads failing_reads_state)
    as [_ H].
  - left. reflexivity.
  - left. reflexivity.
  - reflexivity.
  - reflexivity.
  - reflexivity.
  - reflexivity.
  - lia.
  - intros c. simpl. lia.
  - reflexivity.
  - repeat constructor; eexists _, _, _; split; reflexivity.
  - exact H.
Defined.



Lemma reset_fails_pending_in_order_witness :
  exists s',
    vbdev_error_submit_request no_stray 0 0 reset_request parked_state = Ret s' /\
    calls s' = calls parked_state ++ map fail_call (pending_ios (disk parked_state)) ++
               [spdk_bdev_io_complete reset_request SPDK_BDEV_IO_STATUS_SUCCESS] /\
    pending_ios (disk s') = [] /\
    error_vector (disk s') = error_vector (disk parked_state) /\
    channels s' = channels parked_state /\
    memory s' = memory parked_state.
Proof.
  destruct (reset_fails_pending_in_order no_stray 0 0 reset_request parked_state) as [H _].
  - reflexivity.
  - exact H.
Defined.

(** C5, counterexample: a clear-all call whose error type is CorruptData and
    whose corrupt value is 0 returns -EINVAL and clears nothing: every entry
    keeps its five occurrences and the next read is failed, not forwarded.
    And after a clear-all call that is accepted, a reset request is completed
    by the module itself and is not handed to the base device. *)
Lemma clear_all_rejected_or_reset_not_forwarded :
  (vbdev_error_inject_error always_open "EE_Malloc0" clear_opts_corrupt one_device
     = Ret (- EINVAL, one_device) /\
   exists s',
     vbdev_error_submit_request no_stray 0 0 plain_read
       (mk_state failing_disk idle_channels zero_memory []) = Ret s' /\
     calls s' = [spdk_bdev_io_complete plain_read SPDK_BDEV_IO_STATUS_FAILED]) /\
  (exists d' s',
     vbdev_error_inject_error always_open "EE_Malloc0" clear_opts one_device
       = Ret (0, [(error_malloc0, d')]) /\
     vbdev_error_submit_request no_stray 0 0 reset_request
       (mk_state d' idle_channels zero_memory []) = Ret s' /\
     calls s' = [spdk_bdev_io_complete reset_request SPDK_BDEV_IO_STATUS_SUCCESS]).
Proof.
  split.
  - split; [reflexivity|]. eexists. split; reflexivity.
  - eexists _, _. split; [reflexivity|]. split; reflexivity.
Qed.

Lemma clear_all_zeroes_occurrences_witness :
  exists d',
    one_device !! 0%nat = Some (error_malloc0, failing_disk) /\
    vbdev_error_inject_error always_open "EE_Malloc0" clear_opts one_device
      = Ret (0, <[0%nat := (error_malloc0, d')]> one_device) /\
    pending_ios d' = pending_ios failing_disk /\
    length (error_vector d') = length (error_vector failing_disk).
Proof.
  destruct (clear_all_zeroes_occurrences no_stray always_open "EE_Malloc0" clear_opts
              one_device 0%nat error_malloc0 failing_disk)
    as (d' & H1 & H2 & H3 & H4 & _).
  - reflexivity.
  - intros [H _]. vm_compute in H. discriminate H.
  - reflexivity.
  - reflexivity.
  - reflexivity.
  - exists d'. repeat split; assumption.
Defined.

Lemma corrupt_data_zero_value_rejected_witness :
  vbdev_error_inject_error always_open "EE_Malloc0" corrupt_opts_zero_value one_device
    = Ret (- EINVAL, one_device).
Proof.
  apply (corrupt_data_zero_value_rejected always_open "EE_Malloc0" corrupt_opts_zero_value
           one_device); reflexivity.
Defined.

Lemma specific_kind_store_bounds_witness :
  vbdev_error_inject_error always_open "EE_Malloc0" stray_kind_opts one_device
    = Crash (out_of_bounds_store 7).
Proof.
  destruct (specific_kind_store_bounds always_open "EE_Malloc0" stray_kind_opts one_device
              0%nat error_malloc0 failing_disk)
    as (_ & H & _).
  - vm_compute. discriminate.
  - vm_compute. discriminate.
  - vm_compute. discriminate.
  - intros [H _]. vm_compute in H. discriminate H.
  - reflexivity.
  - reflexivity.
  - reflexivity.
  - apply H. vm_compute. discriminate.
Defined.


(** C10, counterexample: a read without a data buffer (one iovec of 512
    bytes, longer than the corrupt offset 10, with a NULL base) completes
    successfully under a CorruptData entry with an occurrence left: the
    occurrence is spent and no byte at all is changed, where the claim has
    the read buffers corrupted. *)
Lemma read_without_buffer_charged_not_corrupted :
  exists s',
    vbdev_error_complete_request no_stray read_without_buffer true corrupt_read_state
      = Ret s' /\
    error_vector (disk s') !! Z.to_nat SPDK_BDEV_IO_TYPE_READ
      = Some (set_error_num 0 corrupt_read_entry) /\
    ~ exists a, memory s' a <> memory corrupt_read_state a.
Proof.
  eexists. split; [reflexivity|]. split; [reflexivity|].
  intros [a Ha]. apply Ha. reflexivity.
Qed.

Lemma read_corruption_ignores_threshold_witness :
  io_inflight (channels corrupt_read_state (io_channel plain_read))
    < error_qd corrupt_read_entry /\
  exists s',
    vbdev_error_complete_request no_stray plain_read true corrupt_read_state = Ret s' /\
    error_vector (disk s') =
      <[Z.to_nat SPDK_BDEV_IO_TYPE_READ :=
          set_error_num (error_num corrupt_read_entry - 1) corrupt_read_entry]>
        (error_vector (disk corrupt_read_state)) /\
    calls s' = calls corrupt_read_state ++
               [spdk_bdev_io_complete plain_read SPDK_BDEV_IO_STATUS_SUCCESS] /\
    memory s' (4096 + (10 - 0)) <> memory corrupt_read_state (4096 + (10 - 0)).
Proof.
  split; [vm_compute; reflexivity|].
  destruct (read_corruption_ignores_threshold no_stray plain_read corrupt_read_state
              corrupt_read_entry) as [(s' & H1 & H2 & _ & H4 & _ & H6 & _) _].
  - reflexivity.
  - reflexivity.
  - reflexivity.
  - simpl. lia.
  - simpl. lia.
  - exists s'. split; [exact H1|]. split; [exact H2|]. split; [exact H4|].
    destruct (H6 [mk_iovec 4096 512] [] (mk_iovec 4096 512) []) as [_ Hbyte].
    + reflexivity.
    + intros v0 [= <-]. simpl. lia.
    + repeat constructor. simpl. lia.
    + simpl. lia.
    + reflexivity.
    + simpl. lia.
    + apply Hbyte. simpl. lia.
Defined.

(** ** Further properties of the corruption routine *)

Lemma corrupt_walk_twice (l : list iovec) (off val : Z) (mem : Z -> Z) (a : Z) :
  corrupt_walk l off val (corrupt_walk l off val mem) a = mem a.
Proof.
  revert off. induction l as [|v l IH]; intros off; simpl; [reflexivity|].
  destruct (off <? iov_len v); [|apply IH].
  rewrite fn_insert_at. destruct (decide _) as [->|Hne].
  - rewrite fn_lookup_insert, Z.lxor_assoc, Z.lxor_nilpotent, Z.lxor_0_r. reflexivity.
  - rewrite fn_insert_at. destruct (decide _); [contradiction|reflexivity].
Qed.

Lemma corrupt_walk_changed (l : list iovec) (off val : Z) (mem : Z -> Z) (a : Z) :
  0 <= off -> corrupt_walk l off val mem a <> mem a ->
  exists v, v ∈ l /\ iov_base v <= a < iov_base v + iov_len v.
Proof.
  revert off. induction l as [|v l IH]; intros off Hoff; simpl; [congruence|].
  destruct (Z.ltb_spec off (iov_len v)) as [Hlt|Hge].
  - rewrite fn_insert_at. destruct (decide _) as [->|]; [|congruence].
    intros _. exists v. split; [left|lia].
  - intros Hch. destruct (IH (wrap64 (off - iov_len v))) as (v' & Hin & Hrange).
    + unfold wrap64. apply Z.mod_pos_bound. lia.
    + exact Hch.
    + exists v'. split; [right; exact Hin|exact Hrange].
Qed.

Lemma corrupt_walk_one_address (l : list iovec) (off val : Z) (mem : Z -> Z) (a b : Z) :
  corrupt_walk l off val mem a <> mem a -> corrupt_walk l off val mem b <> mem b -> a = b.
Proof.
  revert off. induction l as [|v l IH]; intros off; simpl; [congruence|].
  destruct (off <? iov_len v); [|apply IH].
  rewrite !fn_insert_at.
  destruct (decide (a = _)) as [->|], (decide (b = _)) as [->|]; congruence.
Qed.

(** X1: the corruption is its own inverse: passing a request's buffers
    through [vbdev_error_corrupt_io_data] twice with the same offset and
    value gives back the data as it was, at every address. *)
Theorem corrupt_io_data_twice_restores (bdev_io : spdk_bdev_io) (off val : Z)
    (mem : Z -> Z) (a : Z) :
  vbdev_error_corrupt_io_data bdev_io off val
    (vbdev_error_corrupt_io_data bdev_io off val mem) a = mem a.
Proof.
  unfold vbdev_error_corrupt_io_data.
  destruct (iovs bdev_io) as [[|v0 rest]|]; try reflexivity.
  destruct (iov_base v0 =? 0); [reflexivity|].
  apply corrupt_walk_twice.
Qed.

(** X2: [vbdev_error_corrupt_io_data] never stores outside the request's
    buffers: an address whose byte it changes lies within one of the
    iovecs of the request, and it changes the byte of at most one address. *)
Theorem corrupt_io_data_stays_in_buffers (bdev_io : spdk_bdev_io) (off val : Z)
    (mem : Z -> Z) :
  0 <= off ->
  (forall a, vbdev_error_corrupt_io_data bdev_io off val mem a <> mem a ->
     exists l v, iovs bdev_io = Some l /\ v ∈ l /\
                 iov_base v <= a < iov_base v + iov_len v) /\
  (forall a b, vbdev_error_corrupt_io_data bdev_io off val mem a <> mem a ->
               vbdev_error_corrupt_io_data bdev_io off val mem b <> mem b -> a = b).
Proof.
  intros Hoff. unfold vbdev_error_corrupt_io_data.
  destruct (iovs bdev_io) as [[|v0 rest]|]; try (split; intros; congruence).
  destruct (iov_base v0 =? 0); [split; intros; congruence|].
  split.
  - intros a Hch. destruct (corrupt_walk_changed _ _ _ _ _ Hoff Hch) as (v & Hin & Hr).
    exists (v0 :: rest), v. auto.
  - intros a b. apply corrupt_walk_one_address.
Qed.

Lemma corrupt_io_data_stays_in_buffers_witness :
  exists l v, iovs two_buffer_write = Some l /\ v ∈ l /\
              iov_base v <= 8212 < iov_base v + iov_len v.
Proof.
  destruct (corrupt_io_data_stays_in_buffers two_buffer_write 120 255 zero_memory) as [H _].
  - lia.
  - apply (H 8212). vm_compute. discriminate.
Defined.

(** ** Further properties of the injection *)

Lemma find_error_disk_None name disks :
  Forall (fun p => part_bdev_name p.1 <> name) disks -> find_error_disk name disks = None.
Proof.
  induction 1 as [|[part d] disks Hne _ IH]; simpl; [reflexivity|].
  simpl in Hne. apply String.eqb_neq in Hne. rewrite Hne, IH. reflexivity.
Qed.

Lemma find_error_disk_name name disks k part d :
  find_error_disk name disks = Some (k, part, d) -> part_bdev_name part = name.
Proof.
  revert k. induction disks as [|[p0 d0] disks IH]; intros k; simpl; [discriminate|].
  destruct (String.eqb_spec (part_bdev_name p0) name) as [Heq|_].
  - intros [= <- <- <-]. exact Heq.
  - destruct (find_error_disk name disks) as [[[k' p'] d']|]; simpl; [|discriminate].
    intros [= <- <- <-]. eapply IH. reflexivity.
Qed.

Lemma inject_into_pending opts d d' :
  inject_into opts d = Ret d' -> pending_ios d' = pending_ios d.
Proof.
  unfold inject_into, error_vector_store.
  destruct (_ =? 4294967295); [intros [= <-]; reflexivity|].
  destruct (_ =? 0); [intros [= <-]; reflexivity|].
  destruct (decide _); [intros [= <-]; reflexivity|discriminate].
Qed.

(** X10: an inject call for a name that no error bdev carries changes
    nothing and returns an error: -EINVAL when the corrupt value is
    refused, else the code of the failed open, else -ENODEV when the name
    opens but belongs to a bdev that is not an error bdev. *)
Theorem inject_unknown_device_changes_nothing (spdk_bdev_open_ext : string -> Z)
    (name : string) (opts : vbdev_error_inject_opts)
    (disks : list (spdk_bdev_part * error_disk)) :
  Forall (fun p => part_bdev_name p.1 <> name) disks ->
  exists rc,
    vbdev_error_inject_error spdk_bdev_open_ext name opts disks = Ret (rc, disks) /\
    rc <> 0 /\
    (opts_error_type opts = VBDEV_IO_CORRUPT_DATA /\ opts_corrupt_value opts = 0 ->
     rc = - EINVAL) /\
    (~ (opts_error_type opts = VBDEV_IO_CORRUPT_DATA /\ opts_corrupt_value opts = 0) ->
     (spdk_bdev_open_ext name <> 0 -> rc = spdk_bdev_open_ext name) /\
     (spdk_bdev_open_ext name = 0 -> rc = - ENODEV)).
Proof.
  intros Hnone. unfold vbdev_error_inject_error.
  rewrite (find_error_disk_None _ _ Hnone).
  destruct (_ && _) eqn:Hguard.
  - exists (- EINVAL). split; [reflexivity|]. split; [discriminate|].
    split; [reflexivity|].
    intros Hvalid. exfalso. apply Hvalid.
    apply andb_prop in Hguard as [H1 H2]. split; apply Z.eqb_eq; assumption.
  - assert (Hvalid : ~ (opts_error_type opts = VBDEV_IO_CORRUPT_DATA /\
                        opts_corrupt_value opts = 0)).
    { intros [H1 H2]. rewrite H1, H2 in Hguard. discriminate Hguard. }
    destruct (Z.eqb_spec (spdk_bdev_open_ext name) 0) as [Hz|Hnz]; simpl.
    + exists (- ENODEV). split; [reflexivity|]. split; [discriminate|].
      split; [intros Hrefused; contradiction|].
      intros _. split; [contradiction|reflexivity].
    + exists (spdk_bdev_open_ext name). split; [reflexivity|]. split; [exact Hnz|].
      split; [intros Hrefused; contradiction|].
      intros _. split; [reflexivity|contradiction].
Qed.

Lemma inject_unknown_device_changes_nothing_witness :
  (exists rc,
     vbdev_error_inject_error always_open "EE_Malloc1" clear_opts one_device
       = Ret (rc, one_device) /\ rc <> 0) /\
  (exists rc,
     vbdev_error_inject_error always_open "EE_Malloc1" clear_opts_corrupt one_device
       = Ret (rc, one_device) /\ rc = - EINVAL).
Proof.
  assert (Hnone : Forall (fun p => part_bdev_name p.1 <> "EE_Malloc1") one_device).
  { repeat constructor. simpl. discriminate. }
  split.
  - destruct (inject_unknown_device_changes_nothing always_open "EE_Malloc1" clear_opts
                one_device Hnone) as (rc & H1 & H2 & _).
    exists rc. split; assumption.
  - destruct (inject_unknown_device_changes_nothing always_open "EE_Malloc1"
                clear_opts_corrupt one_device Hnone) as (rc & H1 & _ & H3 & _).
    exists rc. split; [exact H1|]. apply H3. split; reflexivity.
Defined.

(** X11: whatever its arguments, an inject call that returns leaves the list
    of devices with the same parts in the same places, every pending queue
    and the length of every fault vector as they were, and every device whose
    name is not the one given exactly as it was; when it returns an error,
    nothing at all is changed. *)
Theorem inject_error_frame (spdk_bdev_open_ext : string -> Z)
    (name : string) (opts : vbdev_error_inject_opts)
    (disks disks' : list (spdk_bdev_part * error_disk)) (rc : Z) :
  vbdev_error_inject_error spdk_bdev_open_ext name opts disks = Ret (rc, disks') ->
  Forall2 (fun p p' =>
             p'.1 = p.1 /\ pending_ios p'.2 = pending_ios p.2 /\
             length (error_vector p'.2) = length (error_vector p.2) /\
             (part_bdev_name p.1 <> name -> p' = p)) disks disks' /\
  (rc <> 0 -> disks' = disks).
Proof.
  assert (Hrefl : Forall2 (fun p p' =>
             p'.1 = p.1 /\ pending_ios p'.2 = pending_ios p.2 /\
             length (error_vector p'.2) = length (error_vector p.2) /\
             (part_bdev_name p.1 <> name -> p' = p)) disks disks).
  { apply Forall_Forall2_diag, Forall_true. intros p. auto. }
  unfold vbdev_error_inject_error.
  destruct (_ && _); [intros [= <- <-]; auto|].
  destruct (negb _); [intros [= <- <-]; auto|].
  destruct (find_error_disk name disks) as [[[k part] d]|] eqn:Hfind;
    [|intros [= <- <-]; auto].
  destruct (inject_into opts d) as [d'|f] eqn:Hinto; simpl; [|discriminate].
  intros [= <- <-]. split; [|congruence].
  rewrite <- (list_insert_id disks k (part, d)) at 1
    by (eapply find_error_disk_lookup; exact Hfind).
  apply Forall2_insert; [exact Hrefl|]. simpl.
  split; [reflexivity|].
  split; [eapply inject_into_pending; exact Hinto|].
  split; [eapply inject_into_length; exact Hinto|].
  intros Hne. exfalso. apply Hne. eapply find_error_disk_name. exact Hfind.
Qed.

Lemma inject_error_frame_witness :
  Forall2 (fun p p' =>
             p'.1 = p.1 /\ pending_ios p'.2 = pending_ios p.2 /\
             length (error_vector p'.2) = length (error_vector p.2) /\
             (part_bdev_name p.1 <> "EE_Malloc0" -> p' = p))
          one_device
          [(error_malloc0, mk_disk (map (set_error_num 0) (error_vector failing_disk)) [])].
Proof.
  destruct (inject_error_frame always_open "EE_Malloc0" clear_opts one_device
              [(error_malloc0, mk_disk (map (set_error_num 0) (error_vector failing_disk)) [])]
              0) as [H _].
  - reflexivity.
  - exact H.
Defined.

(** ** Further properties of the configuration registry *)

Lemma config_find_None name cfgs :
  vbdev_error_config_find_by_base_name name cfgs = None <-> name ∉ map base_bdev cfgs.
Proof.
  unfold vbdev_error_config_find_by_base_name.
  induction cfgs as [|cfg cfgs IH]; simpl.
  - split; [intros _; apply not_elem_of_nil|reflexivity].
  - rewrite not_elem_of_cons.
    destruct (String.eqb_spec (base_bdev cfg) name) as [Heq|Hne].
    + split; [discriminate|]. intros [Hn _]. congruence.
    + rewrite IH. split; [intros H; split; [congruence|exact H]|intros [_ H]; exact H].
Qed.

Lemma config_find_Some name cfgs cfg :
  vbdev_error_config_find_by_base_name name cfgs = Some cfg ->
  base_bdev cfg = name /\ cfg ∈ cfgs.
Proof.
  unfold vbdev_error_config_find_by_base_name.
  induction cfgs as [|c cfgs IH]; simpl; [discriminate|].
  destruct (String.eqb_spec (base_bdev c) name) as [Heq|Hne].
  - intros [= <-]. split; [exact Heq|left].
  - intros H. destruct (IH H) as [H1 H2]. split; [exact H1|right; exact H2].
Qed.

Lemma config_find_app_other name other uuid cfgs :
  other <> name ->
  vbdev_error_config_find_by_base_name other (cfgs ++ [mk_config name uuid]) =
  vbdev_error_config_find_by_base_name other cfgs.
Proof.
  intros Hne. unfold vbdev_error_config_find_by_base_name.
  induction cfgs as [|c cfgs IH]; simpl.
  - destruct (String.eqb_spec name other); [congruence|reflexivity].
  - destruct (String.eqb (base_bdev c) other); [reflexivity|exact IH].
Qed.

Lemma config_unlink_elem name cfgs x :
  x ∈ map base_bdev (config_unlink name cfgs) -> x ∈ map base_bdev cfgs.
Proof.
  induction cfgs as [|c cfgs IH]; simpl; [auto|].
  destruct (String.eqb (base_bdev c) name); simpl.
  - intros H. right. exact H.
  - rewrite !elem_of_cons. intros [H|H]; [left; exact H|right; apply IH; exact H].
Qed.

Lemma config_unlink_wf name cfgs :
  registry_wf cfgs -> registry_wf (config_unlink name cfgs).
Proof.
  unfold registry_wf. induction cfgs as [|c cfgs IH]; simpl; [auto|].
  rewrite NoDup_cons. intros [Hnin Hnd].
  destruct (String.eqb (base_bdev c) name); simpl; [exact Hnd|].
  apply NoDup_cons. split; [|apply IH; exact Hnd].
  intros Hin. apply Hnin. eapply config_unlink_elem. exact Hin.
Qed.

Lemma config_unlink_forgets name cfgs :
  registry_wf cfgs -> name ∉ map base_bdev (config_unlink name cfgs).
Proof.
  unfold registry_wf. induction cfgs as [|c cfgs IH]; simpl.
  - intros _. apply not_elem_of_nil.
  - rewrite NoDup_cons. intros [Hnin Hnd].
    destruct (String.eqb_spec (base_bdev c) name) as [Heq|Hne]; simpl.
    + rewrite <- Heq. exact Hnin.
    + rewrite not_elem_of_cons. split; [congruence|apply IH; exact Hnd].
Qed.

Lemma config_unlink_other name other cfgs :
  other <> name ->
  vbdev_error_config_find_by_base_name other (config_unlink name cfgs) =
  vbdev_error_config_find_by_base_name other cfgs.
Proof.
  intros Hne. unfold vbdev_error_config_find_by_base_name.
  induction cfgs as [|c cfgs IH]; simpl; [reflexivity|].
  destruct (String.eqb_spec (base_bdev c) name) as [Heq|Hn]; simpl.
  - destruct (String.eqb_spec (base_bdev c) other); [congruence|reflexivity].
  - destruct (String.eqb (base_bdev c) other); [reflexivity|exact IH].
Qed.

Lemma config_unlink_length name cfgs :
  vbdev_error_config_find_by_base_name name cfgs <> None ->
  (length (config_unlink name cfgs) + 1 = length cfgs)%nat.
Proof.
  unfold vbdev_error_config_find_by_base_name.
  induction cfgs as [|c cfgs IH]; simpl; [congruence|].
  destruct (String.eqb (base_bdev c) name); simpl; [lia|].
  intros H. rewrite <- (IH H). lia.
Qed.

Lemma registry_wf_app name uuid cfgs :
  registry_wf cfgs -> vbdev_error_config_find_by_base_name name cfgs = None ->
  registry_wf (cfgs ++ [mk_config name uuid]).
Proof.
  unfold registry_wf. intros Hnd Hfind. rewrite map_app. simpl.
  apply NoDup_app. split; [exact Hnd|]. split; [|apply NoDup_singleton].
  intros x Hx Hin. apply list_elem_of_singleton in Hin. subst x.
  apply config_find_None in Hfind. contradiction.
Qed.

(** X12: [vbdev_error_config_add] and lookup by name: when the call returns
    0 the name was not registered before, is found afterwards with the uuid
    given, and the lookup of every other name answers as before; when it
    returns an error the registry is unchanged, and a name that is already
    registered gives -EEXIST. *)
Theorem config_add_registers_one_name (env : environment) (name : string) (uuid : Z)
    (cfgs : list spdk_vbdev_error_config) :
  (fst (vbdev_error_config_add env name uuid cfgs) = 0 ->
   vbdev_error_config_find_by_base_name name cfgs = None /\
   vbdev_error_config_find_by_base_name name
     (snd (vbdev_error_config_add env name uuid cfgs)) = Some (mk_config name uuid) /\
   forall other, other <> name ->
     vbdev_error_config_find_by_base_name other
       (snd (vbdev_error_config_add env name uuid cfgs)) =
     vbdev_error_config_find_by_base_name other cfgs) /\
  (fst (vbdev_error_config_add env name uuid cfgs) <> 0 ->
   snd (vbdev_error_config_add env name uuid cfgs) = cfgs) /\
  (vbdev_error_config_find_by_base_name name cfgs <> None ->
   fst (vbdev_error_config_add env name uuid cfgs) = - EEXIST).
Proof.
  unfold vbdev_error_config_add.
  destruct (vbdev_error_config_find_by_base_name name cfgs) as [cfg|] eqn:Hfind.
  - simpl. split; [discriminate|]. split; reflexivity.
  - destruct (config_calloc_ok env); simpl;
      [|split; [discriminate|split; [reflexivity|congruence]]].
    destruct (config_strdup_ok env); simpl;
      [|split; [discriminate|split; [reflexivity|congruence]]].
    split; [|split; congruence].
    intros _. split; [reflexivity|].
    split; [apply config_find_app_None; exact Hfind|].
    intros other Hne. apply config_find_app_other. exact Hne.
Qed.

(** X13: [vbdev_error_config_remove] on a registry without duplicate names:
    a name that is not registered gives -ENOENT and no change; a registered
    name gives 0, the registry is one entry shorter, the name is no longer
    found, and the lookup of every other name answers as before. *)
Theorem config_remove_forgets_one_name (name : string)
    (cfgs : list spdk_vbdev_error_config) :
  registry_wf cfgs ->
  (vbdev_error_config_find_by_base_name name cfgs = None ->
   vbdev_error_config_remove name cfgs = (- ENOENT, cfgs)) /\
  (vbdev_error_config_find_by_base_name name cfgs <> None ->
   exists cfgs',
     vbdev_error_config_remove name cfgs = (0, cfgs') /\
     (length cfgs' + 1 = length cfgs)%nat /\
     vbdev_error_config_find_by_base_name name cfgs' = None /\
     forall other, other <> name ->
       vbdev_error_config_find_by_base_name other cfgs' =
       vbdev_error_config_find_by_base_name other cfgs).
Proof.
  intros Hwf. unfold vbdev_error_config_remove. split.
  - intros ->. reflexivity.
  - intros Hsome.
    destruct (vbdev_error_config_find_by_base_name name cfgs) as [cfg|] eqn:Hfind;
      [|congruence].
    exists (config_unlink name cfgs). split; [reflexivity|].
    split; [apply config_unlink_length; congruence|].
    split; [apply config_find_None, config_unlink_forgets; exact Hwf|].
    intros other Hne. apply config_unlink_other. exact Hne.
Qed.

Lemma create_config (env : environment) (name : string) (uuid : Z) (g : globals) :
  g_error_config (snd (vbdev_error_create env name uuid g)) = g_error_config g \/
  (vbdev_error_config_find_by_base_name name (g_error_config g) = None /\
   fst (vbdev_error_create env name uuid g) = 0 /\
   g_error_config (snd (vbdev_error_create env name uuid g)) =
     g_error_config g ++ [mk_config name uuid]).
Proof.
  unfold vbdev_error_create, vbdev_error_config_add.
  destruct (vbdev_error_config_find_by_base_name name (g_error_config g)) eqn:Hfind;
    [left; reflexivity|].
  destruct (config_calloc_ok env); simpl; [|left; reflexivity].
  destruct (config_strdup_ok env); simpl; [|left; reflexivity].
  destruct (_vbdev_error_create env name uuid (g_error_disks g)) as [rc disks].
  destruct (Z.eqb_spec rc (- ENODEV)); [right; auto|].
  destruct (Z.eqb_spec rc 0) as [->|Hnz]; simpl; [right; auto|].
  left. unfold vbdev_error_config_remove.
  rewrite (config_find_app_None _ _ _ Hfind), (config_unlink_app_None _ _ _ Hfind).
  reflexivity.
Qed.

Lemma create_nonzero_config (env : environment) (name : string) (uuid : Z) (g : globals) :
  fst (vbdev_error_create env name uuid g) <> 0 ->
  g_error_config (snd (vbdev_error_create env name uuid g)) = g_error_config g.
Proof.
  intros Hnz. destruct (create_config env name uuid g) as [H|(_ & H & _)];
    [exact H|contradiction].
Qed.

Lemma examine_config (env : environment) (name : string) (g : globals) :
  g_error_config (vbdev_error_examine env name g) = g_error_config g.
Proof.
  unfold vbdev_error_examine.
  destruct (vbdev_error_config_find_by_base_name name (g_error_config g)); reflexivity.
Qed.

(** X14: the registry never holds two entries for one base name: starting
    from a registry without duplicates, [vbdev_error_create],
    [vbdev_error_examine], [vbdev_error_config_remove] and
    [vbdev_error_destruct] each leave a registry without duplicates,
    whatever the outcome of the call. *)
Theorem registry_names_stay_unique (env : environment) (name : string) (uuid : Z)
    (g : globals) :
  registry_wf (g_error_config g) ->
  registry_wf (g_error_config (snd (vbdev_error_create env name uuid g))) /\
  registry_wf (g_error_config (vbdev_error_examine env name g)) /\
  registry_wf (snd (vbdev_error_config_remove name (g_error_config g))) /\
  (forall spdk_bdev_part_free part,
     registry_wf (g_error_config (snd (vbdev_error_destruct spdk_bdev_part_free part g)))).
Proof.
  intros Hwf.
  assert (Hremove : forall n, registry_wf (snd (vbdev_error_config_remove n (g_error_config g)))).
  { intros n. unfold vbdev_error_config_remove.
    destruct (vbdev_error_config_find_by_base_name n (g_error_config g)); simpl;
      [apply config_unlink_wf|]; exact Hwf. }
  split; [|split; [|split]].
  - destruct (create_config env name uuid g) as [->|(Hfind & _ & ->)]; [exact Hwf|].
    apply registry_wf_app; assumption.
  - rewrite examine_config. exact Hwf.
  - apply Hremove.
  - intros free part. unfold vbdev_error_destruct.
    specialize (Hremove (part_base_name part)).
    destruct (vbdev_error_config_remove (part_base_name part) (g_error_config g)).
    exact Hremove.
Qed.

Lemma two_entries_wf : registry_wf two_entries.
Proof.
  unfold registry_wf, two_entries. simpl.
  apply NoDup_cons. split; [|apply NoDup_singleton].
  intros H. apply list_elem_of_singleton in H. discriminate H.
Qed.

Lemma registry_names_stay_unique_witness :
  registry_wf (g_error_config
                 (snd (vbdev_error_create env_absent "Malloc1" 0 registered_globals))).
Proof.
  destruct (registry_names_stay_unique env_absent "Malloc1" 0 registered_globals) as [H _].
  - exact two_entries_wf.
  - exact H.
Defined.

Lemma config_remove_forgets_one_name_witness :
  vbdev_error_config_remove "Malloc1" two_entries = (- ENOENT, two_entries).
Proof.
  destruct (config_remove_forgets_one_name "Malloc1" two_entries two_entries_wf) as [H _].
  apply H. reflexivity.
Defined.

(** X15: [vbdev_error_examine] never changes the registry; for a bdev whose
    name has no entry it does nothing at all, and when the construction
    fails the globals are as they were, the entry still there for a later
    examine. *)
Theorem examine_keeps_registry (env : environment) (name : string) (g : globals) :
  g_error_config (vbdev_error_examine env name g) = g_error_config g /\
  (vbdev_error_config_find_by_base_name name (g_error_config g) = None ->
   vbdev_error_examine env name g = g) /\
  (forall cfg,
     vbdev_error_config_find_by_base_name name (g_error_config g) = Some cfg ->
     fst (_vbdev_error_create env name (uuid cfg) (g_error_disks g)) <> 0 ->
     vbdev_error_examine env name g = g).
Proof.
  split; [apply examine_config|]. unfold vbdev_error_examine. split.
  - intros ->. reflexivity.
  - intros cfg -> Hfail. rewrite (_vbdev_error_create_failed _ _ _ _ Hfail).
    destruct g; reflexivity.
Qed.

Lemma fresh_disk_inert : inert fresh_disk.
Proof. unfold inert, fresh_disk. simpl. repeat constructor. Qed.

(** X16: with the base device present and every construction step
    succeeding, [vbdev_error_create] returns 0, registers the entry and
    builds at once the device EE_<base> with the uuid given; its fault vector
    is zeroed, so until an inject call every request that is not a reset is
    forwarded to the base device untouched. *)
Theorem create_constructs_transparent_device (env : environment) (name : string)
    (uuid : Z) (g : globals) :
  vbdev_error_config_find_by_base_name name (g_error_config g) = None ->
  config_calloc_ok env = true -> config_strdup_ok env = true ->
  spdk_bdev_part_base_construct_ext env name = 0 ->
  disk_calloc_ok env = true -> spdk_sprintf_alloc_ok env = true ->
  spdk_bdev_part_construct env ("EE_" +:+ name)%string = 0 ->
  vbdev_error_create env name uuid g =
    (0, mk_globals (g_error_config g ++ [mk_config name uuid])
                   (g_error_disks g ++
                    [(mk_part ("EE_" +:+ name)%string uuid name, fresh_disk)])) /\
  (forall stray s pre si rc c io,
     disk s = fresh_disk ->
     run stray pre s = Ret si ->
     io_type io <> SPDK_BDEV_IO_TYPE_RESET ->
     exists si',
       vbdev_error_submit_request stray rc c io si = Ret si' /\
       forwarded_untouched rc io si si').
Proof.
  intros Hfind Hc Hs Hbase Hdc Hsp Hpart. split.
  - unfold vbdev_error_create.
    rewrite (config_add_fresh env name uuid _ Hfind Hc Hs). simpl.
    rewrite (_vbdev_error_create_constructs env name uuid _ Hbase Hdc Hsp Hpart).
    reflexivity.
  - intros stray s pre si rc c io Hdisk Hrun Hreset.
    assert (Hinert : inert (disk s)) by (rewrite Hdisk; apply fresh_disk_inert).
    assert (Hwf : disk_wf (disk s)) by (rewrite Hdisk; apply fresh_disk_wf).
    pose proof (run_inert stray pre s si Hinert Hwf Hrun) as Hvec.
    exists (forward rc c io si). split; [|apply forward_untouched].
    apply submit_request_inert; [| |exact Hreset].
    + unfold inert. rewrite Hvec. exact Hinert.
    + unfold disk_wf. rewrite Hvec. exact Hwf.
Qed.

Lemma create_constructs_transparent_device_witness :
  vbdev_error_create env_present "Malloc0" 0 no_globals =
    (0, mk_globals (g_error_config no_globals ++ [mk_config "Malloc0" 0])
                   (g_error_disks no_globals ++
                    [(mk_part ("EE_" +:+ "Malloc0")%string 0 "Malloc0", fresh_disk)])).
Proof.
  destruct (create_constructs_transparent_device env_present "Malloc0" 0 no_globals)
    as [H _];
    [reflexivity|reflexivity|reflexivity|reflexivity|reflexivity|reflexivity|reflexivity|].
  exact H.
Defined.

(** X17: after a create that returned 0, whether the device was built or its
    construction deferred, another create for the same base name returns
    -EEXIST and changes nothing, whatever its uuid and whatever the part
    library would answer. *)
Theorem create_twice_already_exists (env env' : environment) (name : string)
    (uuid uuid' : Z) (g : globals) :
  fst (vbdev_error_create env name uuid g) = 0 ->
  vbdev_error_create env' name uuid' (snd (vbdev_error_create env name uuid g)) =
    (- EEXIST, snd (vbdev_error_create env name uuid g)).
Proof.
  intros Hok.
  assert (Hfound : vbdev_error_config_find_by_base_name name
                     (g_error_config (snd (vbdev_error_create env name uuid g)))
                   = Some (mk_config name uuid)).
  { revert Hok. unfold vbdev_error_create, vbdev_error_config_add.
    destruct (vbdev_error_config_find_by_base_name name (g_error_config g)) eqn:Hfind;
      [discriminate|].
    destruct (config_calloc_ok env); simpl; [|discriminate].
    destruct (config_strdup_ok env); simpl; [|discriminate].
    destruct (_vbdev_error_create env name uuid (g_error_disks g)) as [rc disks].
    destruct (Z.eqb_spec rc (- ENODEV)); simpl;
      [intros _; apply config_find_app_None; exact Hfind|].
    destruct (Z.eqb_spec rc 0); simpl; [|congruence].
    intros _. apply config_find_app_None. exact Hfind. }
  generalize dependent (snd (vbdev_error_create env name uuid g)). intros g' Hfound.
  unfold vbdev_error_create, vbdev_error_config_add. rewrite Hfound. reflexivity.
Qed.

Lemma create_twice_already_exists_witness :
  vbdev_error_create env_present "Malloc0" 7
    (snd (vbdev_error_create env_absent "Malloc0" 0 no_globals)) =
  (- EEXIST, snd (vbdev_error_create env_absent "Malloc0" 0 no_globals)).
Proof.
  apply (create_twice_already_exists env_absent env_present "Malloc0" 0 7 no_globals).
  reflexivity.
Defined.

(** X18: [vbdev_error_destruct] returns what [spdk_bdev_part_free] returns,
    also when no entry was registered for the base bdev, and drops the
    registration of the base bdev only: with a registry without duplicates
    the base name is no longer found, every other name is found as before,
    and a later examine of the base bdev builds nothing. *)
Theorem destruct_forgets_registration (spdk_bdev_part_free : spdk_bdev_part -> Z)
    (part : spdk_bdev_part) (g : globals) (env : environment) :
  registry_wf (g_error_config g) ->
  fst (vbdev_error_destruct spdk_bdev_part_free part g) = spdk_bdev_part_free part /\
  vbdev_error_config_find_by_base_name (part_base_name part)
    (g_error_config (snd (vbdev_error_destruct spdk_bdev_part_free part g))) = None /\
  (forall other, other <> part_base_name part ->
     vbdev_error_config_find_by_base_name other
       (g_error_config (snd (vbdev_error_destruct spdk_bdev_part_free part g))) =
     vbdev_error_config_find_by_base_name other (g_error_config g)) /\
  vbdev_error_examine env (part_base_name part)
    (snd (vbdev_error_destruct spdk_bdev_part_free part g)) =
  snd (vbdev_error_destruct spdk_bdev_part_free part g).
Proof.
  intros Hwf. unfold vbdev_error_destruct, vbdev_error_config_remove.
  destruct (vbdev_error_config_find_by_base_name (part_base_name part) (g_error_config g))
    eqn:Hfind; simpl.
  - assert (Hgone : vbdev_error_config_find_by_base_name (part_base_name part)
                      (config_unlink (part_base_name part) (g_error_config g)) = None)
      by (apply config_find_None, config_unlink_forgets; exact Hwf).
    split; [reflexivity|]. split; [exact Hgone|].
    split; [intros other Hne; apply config_unlink_other; exact Hne|].
    unfold vbdev_error_examine. simpl. rewrite Hgone. reflexivity.
  - split; [reflexivity|]. split; [exact Hfind|]. split; [reflexivity|].
    unfold vbdev_error_examine. simpl. rewrite Hfind. reflexivity.
Qed.

Lemma destruct_forgets_registration_witness :
  vbdev_error_config_find_by_base_name "Malloc0"
    (g_error_config (snd (vbdev_error_destruct (fun _ => 1) error_malloc0
                            registered_globals))) = None.
Proof.
  destruct (destruct_forgets_registration (fun _ => 1) error_malloc0 registered_globals
              env_present two_entries_wf) as (_ & H & _).
  exact H.
Defined.

(** ** The serialized configuration *)

Lemma json_depth_entry fmt cfg (n : nat) (rest : list json_call) :
  json_depth n (config_json_entry fmt cfg ++ rest) = json_depth n rest.
Proof. unfold config_json_entry. destruct (uuid cfg =? 0); reflexivity. Qed.

Lemma json_members_app name (l1 l2 : list json_call) :
  json_members name (l1 ++ l2) = json_members name l1 ++ json_members name l2.
Proof.
  induction l1 as [|c l1 IH]; simpl; [reflexivity|].
  destruct c; try exact IH.
  destruct (String.eqb _ _); simpl; rewrite IH; reflexivity.
Qed.

(** X19: [vbdev_error_config_json] returns 0 and writes a well-nested
    stream with one bdev_error_create directive per registered entry, in
    the order of the registry: the base names written are those of the
    entries, and a uuid is written for the entries with a non-null uuid and
    for no other. *)
Theorem config_json_lists_registry (spdk_uuid_fmt_lower : Z -> string)
    (cfgs : list spdk_vbdev_error_config) :
  fst (vbdev_error_config_json spdk_uuid_fmt_lower cfgs) = 0 /\
  json_depth 0 (snd (vbdev_error_config_json spdk_uuid_fmt_lower cfgs)) = Some 0%nat /\
  json_members "method" (snd (vbdev_error_config_json spdk_uuid_fmt_lower cfgs)) =
    replicate (length cfgs) "bdev_error_create" /\
  json_members "base_name" (snd (vbdev_error_config_json spdk_uuid_fmt_lower cfgs)) =
    map base_bdev cfgs /\
  json_members "uuid" (snd (vbdev_error_config_json spdk_uuid_fmt_lower cfgs)) =
    map (fun cfg => spdk_uuid_fmt_lower (uuid cfg))
        (List.filter (fun cfg => negb (uuid cfg =? 0)) cfgs).
Proof.
  split; [reflexivity|]. unfold vbdev_error_config_json. cbn [snd].
  induction cfgs as [|cfg cfgs (IH1 & IH2 & IH3 & IH4)]; [simpl; auto|].
  change (flat_map (config_json_entry spdk_uuid_fmt_lower) (cfg :: cfgs))
    with (config_json_entry spdk_uuid_fmt_lower cfg ++
          flat_map (config_json_entry spdk_uuid_fmt_lower) cfgs).
  rewrite json_depth_entry, !json_members_app, IH2, IH3, IH4.
  split; [exact IH1|].
  unfold config_json_entry. simpl. destruct (uuid cfg =? 0); simpl; auto.
Qed.

(** X20: [vbdev_error_fini] empties the registry whatever it holds and
    leaves the devices alone, so that afterwards no examine builds a
    device and a removal of any name answers -ENOENT. *)
Theorem fini_forgets_registry (env : environment) (name : string) (g : globals) :
  g_error_config (vbdev_error_fini g) = [] /\
  g_error_disks (vbdev_error_fini g) = g_error_disks g /\
  vbdev_error_examine env name (vbdev_error_fini g) = vbdev_error_fini g /\
  vbdev_error_config_remove name (g_error_config (vbdev_error_fini g)) = (- ENOENT, []).
Proof.
  assert (Hclear : forall cfgs, vbdev_error_clear_config cfgs = []).
  { induction cfgs as [|c cfgs IH]; simpl; [reflexivity|exact IH]. }
  unfold vbdev_error_fini, vbdev_error_examine. simpl. rewrite Hclear.
  repeat split.
Qed.

(** ** The further properties at concrete inputs *)

Lemma submit_request_unknown_error_type_witness :
  vbdev_error_submit_request no_stray 0 0 plain_read unknown_type_state
    = Crash assertion_failed.
Proof.
  apply (submit_request_unknown_error_type no_stray 0 0 plain_read unknown_type_state
           (mk_info 9 1 0 0 0)).
  - left. reflexivity.
  - reflexivity.
  - simpl. discriminate.
  - simpl. lia.
  - simpl. discriminate.
  - vm_compute. discriminate.
  - vm_compute. discriminate.
  - vm_compute. discriminate.
  - vm_compute. discriminate.
Defined.

Lemma other_kinds_always_forwarded_witness :
  exists s',
    vbdev_error_submit_request no_stray 0 0 write_zeroes_request all_failing_state = Ret s' /\
    forwarded_untouched 0 write_zeroes_request all_failing_state s'.
Proof.
  apply (other_kinds_always_forwarded no_stray 0 0 write_zeroes_request all_failing_state).
  - intros [H | [H | [H | H]]]; vm_compute in H; discriminate H.
  - vm_compute. discriminate.
Defined.

Lemma completion_without_corruption_witness :
  exists s',
    vbdev_error_complete_request no_stray plain_read false corrupt_read_state = Ret s' /\
    disk s' = disk corrupt_read_state /\ memory s' = memory corrupt_read_state /\
    calls s' = calls corrupt_read_state ++
               [spdk_bdev_io_complete plain_read (completion_status false)] /\
    io_inflight (channels s' (io_channel plain_read)) =
      wrap64 (io_inflight (channels corrupt_read_state (io_channel plain_read)) - 1).
Proof.
  apply (completion_without_corruption no_stray plain_read false corrupt_read_state).
  - simpl. lia.
  - left. reflexivity.
Defined.

Lemma forward_then_complete_restores_in_flight_witness :
  exists s',
    vbdev_error_complete_request no_stray plain_read true
      (forward 0 (io_channel plain_read) plain_read idle_state) = Ret s' /\
    forall c, io_inflight (channels s' c) = io_inflight (channels idle_state c).
Proof.
  destruct (forward_then_complete_restores_in_flight no_stray plain_read true idle_state)
    as [H _].
  - simpl. lia.
  - reflexivity.
  - exact H.
Defined.

Lemma failing_reads_occurrences_wf : occurrences_wf (disk failing_reads_state).
Proof. unfold occurrences_wf. simpl. repeat constructor; simpl; lia. Qed.

Lemma run_only_consumes_occurrences_witness :
  exists s',
    run no_stray three_reads failing_reads_state = Ret s' /\
    Forall2 consumed (error_vector (disk failing_reads_state)) (error_vector (disk s')) /\
    occurrences_wf (disk s').
Proof.
  eexists. split; [reflexivity|].
  apply (run_only_consumes_occurrences no_stray three_reads failing_reads_state).
  - exact failing_reads_occurrences_wf.
  - reflexivity.
Defined.

Lemma three_reads_no_reset : Forall (fun r => ~ is_reset r) three_reads.
Proof.
  repeat constructor; intros (rc & c & io & Heq & Hio);
    injection Heq as <- <- <-; vm_compute in Hio; discriminate Hio.
Qed.

Lemma pending_queue_only_grows_without_reset_witness :
  exists s',
    run no_stray three_reads parked_state = Ret s' /\
    pending_ios (disk parked_state) `prefix_of` pending_ios (disk s').
Proof.
  eexists. split; [reflexivity|].
  apply (pending_queue_only_grows_without_reset no_stray three_reads parked_state).
  - exact three_reads_no_reset.
  - reflexivity.
Defined.

Lemma inject_all_kinds_faults_every_kind_witness :
  exists d',
    vbdev_error_inject_error always_open "EE_Malloc0" all_kinds_opts one_device =
      Ret (0, <[0%nat := (error_malloc0, d')]> one_device) /\
    pending_ios d' = pending_ios failing_disk /\
    error_vector d' = replicate (length (error_vector failing_disk)) (opts_info all_kinds_opts).
Proof.
  destruct (inject_all_kinds_faults_every_kind no_stray always_open "EE_Malloc0"
              all_kinds_opts one_device 0%nat error_malloc0 failing_disk)
    as (d' & H1 & H2 & H3 & _).
  - reflexivity.
  - intros [H _]. vm_compute in H. discriminate H.
  - reflexivity.
  - reflexivity.
  - reflexivity.
  - exists d'. repeat split; assumption.
Defined.

Lemma config_add_registers_one_name_witness :
  vbdev_error_config_find_by_base_name "Malloc1"
    (snd (vbdev_error_config_add env_absent "Malloc1" 0 two_entries))
  = Some (mk_config "Malloc1" 0).
Proof.
  destruct (config_add_registers_one_name env_absent "Malloc1" 0 two_entries) as [H _].
  destruct (H eq_refl) as (_ & Hfound & _). exact Hfound.
Defined.

Lemma examine_keeps_registry_witness :
  vbdev_error_examine env_absent "Malloc0" registered_globals = registered_globals.
Proof.
  destruct (examine_keeps_registry env_absent "Malloc0" registered_globals) as (_ & _ & H).
  apply (H (mk_config "Malloc0" 0)).
  - reflexivity.
  - vm_compute. discriminate.
Defined.

Lemma fault_applies_from_threshold_witness :
  (exists s',
     vbdev_error_submit_request no_stray 0 1 (read_on 2 1) threshold_reached_state = Ret s' /\
     forwarded_untouched 0 (read_on 2 1) threshold_reached_state s') /\
  (exists s',
     vbdev_error_submit_request no_stray 0 0 (read_on 1 0) threshold_reached_state = Ret s' /\
     error_vector (disk s') =
       <[Z.to_nat (io_type (read_on 1 0)) :=
           set_error_num (error_num (mk_info VBDEV_IO_FAILURE 1 3 0 0) - 1)
             (mk_info VBDEV_IO_FAILURE 1 3 0 0)]>
         (error_vector (disk threshold_reached_state)) /\
     affected 0 0 (read_on 1 0) (mk_info VBDEV_IO_FAILURE 1 3 0 0)
              threshold_reached_state s' VBDEV_IO_FAILURE).
Proof.
  split.
  - destruct (fault_applies_from_threshold no_stray 0 1 (read_on 2 1)
                threshold_reached_state (mk_info VBDEV_IO_FAILURE 1 3 0 0) VBDEV_IO_FAILURE)
      as [H _].
    + left. reflexivity.
    + left. reflexivity.
    + reflexivity.
    + reflexivity.
    + simpl. lia.
    + apply H. simpl. lia.
  - destruct (fault_applies_from_threshold no_stray 0 0 (read_on 1 0)
                threshold_reached_state (mk_info VBDEV_IO_FAILURE 1 3 0 0) VBDEV_IO_FAILURE)
      as [_ H].
    + left. reflexivity.
    + left. reflexivity.
    + reflexivity.
    + reflexivity.
    + simpl. lia.
    + apply H. simpl. lia.
Defined.
